(** * CSV email processing: a shallow embedding and its verified properties

    The development follows [csv_email_processor.py] (the dialog driven
    script) and [csv_email_processor_gui.py] (the window driven variant).
    Python strings are sequences of code points, pandas cells are strings,
    NaN or other scalars, the exclusion set is a finite set of strings and
    every effect of a run (console lines, message boxes, the written file)
    is recorded in an event trace. *)

From Stdlib Require Import String Ascii NArith List Bool Lia.
From stdpp Require Import base decidable option list countable gmap strings.
Import ListNotations.

Local Open Scope N_scope.
Local Open Scope list_scope.

(** ** Python strings *)

Module Py.

(** A [str] is a sequence of Unicode code points. *)
Definition char := N.
Definition str := list N.

(** String literals of the source are written with [lit]. *)
Definition lit (s : string) : str :=
  List.map N_of_ascii (list_ascii_of_string s).

Definition is_ascii (c : char) : bool := c <? 128.

Definition in_range (lo hi c : char) : bool := (lo <=? c) && (c <=? hi).

Definition is_upper (c : char) : bool := in_range 65 90 c.
Definition is_lower (c : char) : bool := in_range 97 122 c.
Definition is_alpha (c : char) : bool := is_lower c || is_upper c.
Definition is_digit (c : char) : bool := in_range 48 57 c.

(** [str.lower()] on a pure ASCII string: only [A-Z] change. *)
Definition lower_ascii (c : char) : char :=
  if is_upper c then c + 32 else c.

(** What the interpreter's Unicode database decides for strings and code
    points outside ASCII.  It is not code of this repository, so it is taken
    as given; every result below holds for all such tables. *)
Record Unicode := {
  unicode_lower : str -> str;
  unicode_isspace : char -> bool;
  unicode_isalnum : char -> bool
}.

(** [s.lower()] *)
Definition lower (u : Unicode) (s : str) : str :=
  if forallb is_ascii s then List.map lower_ascii s
  else unicode_lower u s.

(** [c.isspace()] for one code point. *)
Definition isspace (u : Unicode) (c : char) : bool :=
  if is_ascii c then in_range 9 13 c || in_range 28 32 c
  else unicode_isspace u c.

(** [\w] of the [re] module on [str] patterns. *)
Definition isword (u : Unicode) (c : char) : bool :=
  if is_ascii c then is_alpha c || is_digit c || (c =? 95)
  else unicode_isalnum u c.

Fixpoint lstrip (u : Unicode) (s : str) : str :=
  match s with
  | c :: s' => if isspace u c then lstrip u s' else s
  | [] => []
  end.

(** [s.strip()] *)
Definition strip (u : Unicode) (s : str) : str :=
  rev (lstrip u (rev (lstrip u s))).

(** [sep in s] for a one character [sep]. *)
Definition contains (c : char) (s : str) : bool := existsb (N.eqb c) s.

(** [s.split(sep)] for a one character [sep]: never empty. *)
Fixpoint split (sep : char) (s : str) : list str :=
  match s with
  | [] => [[]]
  | c :: s' =>
      if c =? sep then [] :: split sep s'
      else match split sep s' with
           | piece :: rest => (c :: piece) :: rest
           | [] => [[c]]
           end
  end.

End Py.

(** ** The fragment of [re] used by the scripts *)

Module Re.
Import Py.

(** One pattern element: a greedy repetition [\[set\]{lo,}] of a character
    class, a literal character, or the end anchor [$]. *)
Inductive item :=
| Rep (cls : char -> bool) (lo : nat)
| Lit (c : char)
| Eol.

Definition pattern := list item.

(** Greedy repetition in front of the continuation [k]: take one more
    character of the class when possible, give it back when the rest of the
    pattern then fails. *)
Fixpoint rep (cls : char -> bool) (k : str -> option str) (lo : nat) (s : str)
  : option str :=
  let stop := match lo with O => k s | S _ => None end in
  match s with
  | c :: s' =>
      if cls c then
        match rep cls k (Nat.pred lo) s' with
        | Some r => Some r
        | None => stop
        end
      else stop
  | [] => stop
  end.

(** [match_here p s]: match [p] at the beginning of [s]; the result is what
    is left of [s] after the match. [$] holds at the end of the string and
    just before a newline that ends the string. *)
Fixpoint match_here (p : pattern) (s : str) : option str :=
  match p with
  | [] => Some s
  | Rep cls lo :: p' => rep cls (match_here p') lo s
  | Lit c :: p' =>
      match s with
      | x :: s' => if x =? c then match_here p' s' else None
      | [] => None
      end
  | Eol :: p' =>
      match s with
      | [] => match_here p' s
      | [c] => if c =? 10 then match_here p' s else None
      | _ => None
      end
  end.

(** [re.match(p, s) is not None] *)
Definition is_match (p : pattern) (s : str) : bool :=
  match match_here p s with Some _ => true | None => false end.

(** [re.search(p, s)] followed by [.group()]: the match at the leftmost
    position where one exists. *)
Fixpoint search (p : pattern) (s : str) : option str :=
  match match_here p s with
  | Some r => Some (take (length s - length r)%nat s)
  | None =>
      match s with
      | [] => None
      | _ :: s' => search p s'
      end
  end.

(** [re.sub(\[^set\], '', s)]: delete every character outside the class. *)
Definition sub_outside (cls : char -> bool) (s : str) : str :=
  List.filter cls s.

End Re.

Import Py.

(** ** Tables, exceptions and the trace of a run *)

(** A cell of a table read by [pd.read_csv]: a string, the missing value
    [NaN], or a number (a column that pandas parsed as numeric). *)
Inductive Cell :=
| VStr (s : str)
| VNaN
| VNum (z : Z).

#[global] Instance Cell_eq_dec : EqDecision Cell.
Proof. solve_decision. Defined.

(** A [DataFrame]: column names and rows; a row holds one cell per column
    and a field missing at the end of a row reads as [NaN]. *)
Record DataFrame := {
  columns : list str;
  rows : list (list Cell)
}.

Inductive Exn :=
| OSError                                (* a file cannot be read or written *)
| ValueError (missing : list str)        (* raised by [validate_csv_format] *)
| KeyError (col : str)                   (* [df[col]] on an absent column *)
| AttributeError.                        (* [.str] on a column without strings *)

Inductive result (A : Type) :=
| Ok (a : A)
| Raise (e : Exn).
Arguments Ok {A} a.
Arguments Raise {A} e.

(** [Path(csv_path).parent / name] *)
Record OutPath := {
  parent_of : str;
  name : str
}.

(** The content of a written table: the header record and the data
    records, each a list of fields. *)
Record CsvFile := {
  header : list str;
  records : list (list Cell)
}.

(** The pieces of a formatted message. *)
Inductive piece :=
| Txt (s : string)
| Int (n : nat)
| Str (s : str)
| Obj (c : Cell)
| Strs (l : list str)
| Exc (e : Exn)
| Dir (csv_path : str)                      (* [Path(csv_path).parent] *)
| Base (path : str)                         (* [os.path.basename(path)] *)
| Where (p : OutPath).

Definition message := list piece.

Inductive Event :=
| Print (m : message)                       (* [safe_print] *)
| Log (m : message)                         (* [self.log] of the window *)
| ShowWarning (title : string) (m : message)
| ShowError (title : string) (m : message)
| ShowInfo (title : string) (m : message)
| AskYesNo (title : string) (m : message)   (* [messagebox.askyesno] *)
| AskOpenFileName (title : string)          (* [filedialog.askopenfilename] *)
| WriteFile (p : OutPath) (f : CsvFile).    (* a file created by [to_csv] *)

(** What the file system answers during a run. *)
Record FileSystem := {
  read_csv : str -> result DataFrame;     (* [pd.read_csv(path)] *)
  read_lines : str -> result (list str);  (* the lines of [open(path)] *)
  writable : OutPath -> bool
}.

(** The interpreter and library behaviour a run depends on: the Unicode
    tables, and whether pandas grants the [.str] accessor on a column (it
    raises [AttributeError] otherwise). *)
Record Runtime := {
  unicode : Unicode;
  str_accessor_ok : list Cell -> bool
}.

(** A computation that emits events and returns or raises. *)
Definition M (A : Type) : Type := (result A * list Event)%type.

Definition ret {A} (a : A) : M A := (Ok a, []).
Definition raise {A} (e : Exn) : M A := (Raise e, []).
Definition emit (e : Event) : M unit := (Ok tt, [e]).
Definition lift {A} (r : result A) : M A := (r, []).

Definition bind {A B} (m : M A) (f : A -> M B) : M B :=
  match m with
  | (Ok a, t) => let (r, t') := f a in (r, t ++ t')
  | (Raise e, t) => (Raise e, t)
  end.

(** [try: m except Exception as e: h e] *)
Definition try_except {A} (m : M A) (h : Exn -> M A) : M A :=
  match m with
  | (Ok a, t) => (Ok a, t)
  | (Raise e, t) => let (r, t') := h e in (r, t ++ t')
  end.

Notation "'do' x <- m ; k" := (bind m (fun x => k))
  (at level 10, x name, m at level 100, k at level 200,
   format "'[v' 'do'  x  <-  m ; '/' k ']'").
Notation "'run' m ; k" := (bind m (fun _ => k))
  (at level 10, m at level 100, k at level 200,
   format "'[v' 'run'  m ; '/' k ']'").

Definition safe_print (m : message) : M unit := emit (Print m).
Definition showwarning (title : string) (m : message) : M unit :=
  emit (ShowWarning title m).
Definition showerror (title : string) (m : message) : M unit :=
  emit (ShowError title m).
Definition showinfo (title : string) (m : message) : M unit :=
  emit (ShowInfo title m).

(** ** pandas operations used by the scripts *)

Definition str_eqb (a b : str) : bool := bool_decide (a = b).

Fixpoint col_index (c : str) (cols : list str) : option nat :=
  match cols with
  | [] => None
  | x :: cols' => if str_eqb x c then Some O
                  else option_map S (col_index c cols')
  end.

(** [col in df.columns] *)
Definition has_column (df : DataFrame) (c : str) : bool :=
  match col_index c (columns df) with Some _ => true | None => false end.

Definition field (i : nat) (row : list Cell) : Cell := nth i row VNaN.

(** [df[col]] *)
Definition getitem (df : DataFrame) (c : str) : result (list Cell) :=
  match col_index c (columns df) with
  | Some i => Ok (List.map (field i) (rows df))
  | None => Raise (KeyError c)
  end.

(** [series != s] for a string [s], element by element. *)
Definition cell_ne (s : str) (c : Cell) : bool :=
  match c with
  | VStr x => negb (str_eqb x s)
  | _ => true
  end.

Definition ne (series : list Cell) (s : str) : list bool :=
  List.map (cell_ne s) series.

(** [df[mask]]: the rows whose mask entry is true, in order. *)
Fixpoint mask_rows (mask : list bool) (rs : list (list Cell))
  : list (list Cell) :=
  match mask, rs with
  | b :: mask', r :: rs' =>
      if b then r :: mask_rows mask' rs' else mask_rows mask' rs'
  | _, _ => []
  end.

Definition select (df : DataFrame) (mask : list bool) : DataFrame :=
  {| columns := columns df; rows := mask_rows mask (rows df) |}.

(** [len(df)] *)
Definition len (df : DataFrame) : nat := length (rows df).

(** [series.str.lower()]: strings are lower-cased, every other cell
    becomes [NaN]. *)
Definition cell_lower (u : Unicode) (c : Cell) : Cell :=
  match c with
  | VStr s => VStr (lower u s)
  | _ => VNaN
  end.

Definition str_lower (rt : Runtime) (series : list Cell)
  : result (list Cell) :=
  if str_accessor_ok rt series
  then Ok (List.map (cell_lower (unicode rt)) series)
  else Raise AttributeError.

(** [series.isin(values)] for a set of strings. *)
Definition cell_in (values : gset str) (c : Cell) : bool :=
  match c with
  | VStr s => bool_decide (s ∈ values)
  | _ => false
  end.

Definition isin (series : list Cell) (values : gset str) : list bool :=
  List.map (cell_in values) series.

(** [pd.DataFrame({col: values})] *)
Definition frame_of_column (c : str) (values : list Cell) : DataFrame :=
  {| columns := [c]; rows := List.map (fun v => [v]) values |}.

(** [df.to_csv(path, index=index)]: with [index] the row number is written
    as a first, unnamed column. *)
Fixpoint number_from (n : nat) (rs : list (list Cell)) : list (list Cell) :=
  match rs with
  | [] => []
  | r :: rs' => (VNum (Z.of_nat n) :: r) :: number_from (S n) rs'
  end.

Definition to_csv (fs : FileSystem) (df : DataFrame) (p : OutPath)
  (index : bool) : M unit :=
  if writable fs p then
    emit (WriteFile p
            {| header := if index then [] :: columns df else columns df;
               records := if index then number_from 0 (rows df)
                          else rows df |})
  else raise OSError.

(** ** The script: [csv_email_processor.py] *)

Definition EMAIL_COLUMN : str := lit "Email Address [Required]".
Definition LOGIN_COLUMN : str := lit "Last Sign In [READ ONLY]".
Definition NEVER_LOGGED_IN : str := lit "Never logged in".

Definition AT : char := 64.
Definition DOT : char := 46.

(** The character classes of the email pattern. *)
Definition local_char (c : char) : bool :=
  is_alpha c || is_digit c ||
  (c =? 46) || (c =? 95) || (c =? 37) || (c =? 43) || (c =? 45).
Definition domain_char (c : char) : bool :=
  is_alpha c || is_digit c || (c =? 46) || (c =? 45).

(** [[a-zA-Z0-9._%+-]+@[a-zA-Z0-9.-]+\.[a-zA-Z]{2,}] *)
Definition EMAIL_BODY : Re.pattern :=
  [Re.Rep local_char 1; Re.Lit AT; Re.Rep domain_char 1; Re.Lit DOT;
   Re.Rep is_alpha 2].

(** The pattern of [validate_email]: the same between [^] and [$].  The
    pattern is used with [re.match], which starts at the first character,
    where [^] holds; only [$] needs an element of its own. *)
Definition EMAIL_PATTERN : Re.pattern := EMAIL_BODY ++ [Re.Eol].

Definition validate_csv_format (df : DataFrame) : result bool :=
  let required_columns := [EMAIL_COLUMN; LOGIN_COLUMN] in
  let missing_columns :=
    List.filter (fun c => negb (has_column df c)) required_columns in
  match missing_columns with
  | [] => Ok true
  | _ => Raise (ValueError missing_columns)
  end.

Definition validate_email (email : Cell) : bool :=
  match email with
  | VStr s => Re.is_match EMAIL_PATTERN s
  | _ => false
  end.

(** The class kept by [re.sub(r'[^\w.-]', '', domain)]. *)
Definition filename_char (u : Unicode) (c : char) : bool :=
  isword u c || (c =? 46) || (c =? 45).

(** A cell that is no string makes ['@' in email] raise, which the bare
    [except] turns into ['unknown']; so does a missing second piece. *)
Definition extract_domain (u : Unicode) (email : Cell) : str :=
  match email with
  | VStr s =>
      if contains AT s then
        match split AT s with
        | _ :: domain :: _ => Re.sub_outside (filename_char u) domain
        | _ => lit "unknown"
        end
      else lit "unknown"
  | _ => lit "unknown"
  end.

(** The body of the loop over the lines of the exclusion file. *)
Definition add_line (u : Unicode) (exclusion_emails : gset str) (line : str)
  : gset str :=
  let line := strip u line in
  match line with
  | [] => exclusion_emails
  | _ =>
      match Re.search EMAIL_BODY line with
      | Some email_match => {[ lower u email_match ]} ∪ exclusion_emails
      | None =>
          if validate_email (VStr line)
          then {[ lower u line ]} ∪ exclusion_emails
          else exclusion_emails
      end
  end.

Definition exclusion_of_lines (u : Unicode) (lines : list str) : gset str :=
  fold_left (add_line u) lines ∅.

Section Script.
Variable rt : Runtime.
Variable fs : FileSystem.

Definition load_exclusion_emails (txt_path : str) : M (gset str) :=
  try_except
    (do lines <- lift (read_lines fs txt_path);
     let exclusion_emails := exclusion_of_lines (unicode rt) lines in
     run safe_print [Txt "Loaded "; Int (size exclusion_emails);
                     Txt " emails for exclusion"];
     ret exclusion_emails)
    (fun e =>
       run safe_print [Txt "Error reading exclusion file: "; Exc e];
       ret ∅).

(** Truth value of a path given by a dialog: [None] and [''] are false. *)
Definition chosen (path : option str) : option str :=
  match path with
  | Some (c :: p) => Some (c :: p)
  | _ => None
  end.

(** Phase 2 of [process_csv]. *)
Definition exclude (df_filtered : DataFrame) (txt_path : option str)
  : M DataFrame :=
  match chosen txt_path with
  | Some txt_path =>
      do exclusion_emails <- load_exclusion_emails txt_path;
      if bool_decide (exclusion_emails = ∅) then ret df_filtered
      else
        let email_column := EMAIL_COLUMN in
        let before_exclusion := len df_filtered in
        do series <- lift (getitem df_filtered email_column);
        do lowered <- lift (str_lower rt series);
        let df_filtered :=
          select df_filtered (List.map negb (isin lowered exclusion_emails)) in
        let after_exclusion := len df_filtered in
        let excluded_count := (before_exclusion - after_exclusion)%nat in
        run safe_print [Txt "Phase 2: Excluded "; Int excluded_count;
                        Txt " emails from TXT file"];
        ret df_filtered
  | None => ret df_filtered
  end.

(** The validation loop: the valid emails in order, and the number of
    rejected ones, each rejection printed as a warning. *)
Fixpoint validate_all (emails : list Cell) (valid_emails : list Cell)
  (invalid_count : nat) : M (list Cell * nat) :=
  match emails with
  | [] => ret (valid_emails, invalid_count)
  | email :: emails' =>
      if validate_email email
      then validate_all emails' (valid_emails ++ [email]) invalid_count
      else
        run safe_print [Txt "Warning: Invalid email format skipped: ";
                        Obj email];
        validate_all emails' valid_emails (S invalid_count)
  end.

(** [set(extract_domain(email) for email in valid_emails)] *)
Definition domains_of (valid_emails : list Cell) : gset str :=
  list_to_set (List.map (extract_domain (unicode rt)) valid_emails).

Definition process_csv (csv_path : str) (txt_path : option str)
  : M (option (list Cell * str * str)) :=
  try_except
    (run safe_print [Txt "Loading CSV file: "; Str csv_path];
     do df <- lift (read_csv fs csv_path);
     run safe_print [Txt "Loaded "; Int (len df); Txt " rows from CSV"];
     do _ <- lift (validate_csv_format df);
     let initial_count := len df in
     do status <- lift (getitem df LOGIN_COLUMN);
     let df_filtered := select df (ne status NEVER_LOGGED_IN) in
     let filtered_count := len df_filtered in
     run safe_print [Txt "Phase 1: Filtered ";
                     Int (initial_count - filtered_count);
                     Txt " rows (kept "; Int filtered_count;
                     Txt " users who have logged in)"];
     if (filtered_count =? 0)%nat then
       run showwarning "No Data"
             [Txt "No users who have logged in found. Output will be empty."];
       ret None
     else
       do df_filtered <- exclude df_filtered txt_path;
       let email_column := EMAIL_COLUMN in
       do emails <- lift (getitem df_filtered email_column);
       do checked <- validate_all emails [] 0;
       let (valid_emails, invalid_count) := checked in
       run (if (0 <? invalid_count)%nat
            then safe_print [Txt "Skipped "; Int invalid_count;
                             Txt " invalid email addresses"]
            else ret tt);
       match valid_emails with
       | [] =>
           run showwarning "No Valid Emails"
                 [Txt "No valid email addresses found after processing."];
           ret None
       | first :: _ =>
           let domain := extract_domain (unicode rt) first in
           run safe_print [Txt "Detected domain: "; Str domain];
           let domains := domains_of valid_emails in
           run (if (1 <? size domains)%nat
                then run safe_print [Txt "Warning: Multiple domains detected: ";
                                     Strs (elements domains)];
                     safe_print [Txt "Using primary domain: "; Str domain]
                else ret tt);
           ret (Some (valid_emails, domain, csv_path))
       end)
    (fun e =>
       run showerror "Error" [Txt "Error processing CSV: "; Exc e];
       ret None).

Definition save_output (emails : list Cell) (domain : str) (csv_path : str)
  : M (option OutPath) :=
  try_except
    (let output_filename := domain ++ lit "-to-delete.csv" in
     let output_path := {| parent_of := csv_path; name := output_filename |} in
     let output_df := frame_of_column (lit "primaryEmail") emails in
     run to_csv fs output_df output_path false;
     run safe_print [Txt "Output saved to: "; Where output_path];
     run safe_print [Txt "Total emails in output: "; Int (length emails)];
     run showinfo "Success"
           [Txt "Processing complete!"; Txt "Output file: ";
            Str output_filename; Txt "Location: "; Dir csv_path;
            Txt "Total emails: "; Int (length emails)];
     ret (Some output_path))
    (fun e =>
       run showerror "Error" [Txt "Error saving output: "; Exc e];
       ret None).

(** [main], given the answers of the two file dialogs. *)
Definition main (csv_path : str) (txt_path : option str) : M unit :=
  run safe_print [Txt "CSV Email Processing Script"];
  run safe_print [Txt "========================================"];
  try_except
    (match csv_path with
     | [] => safe_print [Txt "No CSV file selected. Exiting."]
     | _ =>
         run (match chosen txt_path with
              | Some p => safe_print [Txt "TXT file selected: "; Str p]
              | None =>
                  safe_print [Txt "No TXT file selected (skipping exclusions)"]
              end);
         do processed <- process_csv csv_path txt_path;
         match processed with
         | None => safe_print [Txt "Processing failed or no data to output."]
         | Some (emails, domain, input_path) =>
             do output_path <- save_output emails domain input_path;
             match output_path with
             | Some _ => safe_print [Txt "Script completed successfully!"]
             | None => safe_print [Txt "Script completed with errors."]
             end
         end
     end)
    (fun e =>
       run safe_print [Txt "Unexpected error: "; Exc e];
       showerror "Unexpected Error"
         [Txt "An unexpected error occurred: "; Exc e]).

End Script.

(** ** The window: [csv_email_processor_gui.py]

    [validate_email], [extract_domain] and the loop body of
    [load_exclusion_emails] are the same text there as in the script. *)

Module Gui.
Section Window.
Variable rt : Runtime.
Variable fs : FileSystem.

Definition log (m : message) : M unit := emit (Log m).

Definition load_exclusion_emails (txt_path : str) : M (gset str) :=
  try_except
    (do lines <- lift (read_lines fs txt_path);
     let exclusion_emails := exclusion_of_lines (unicode rt) lines in
     run log [Txt "Loaded "; Int (size exclusion_emails);
              Txt " emails for exclusion"];
     ret exclusion_emails)
    (fun e =>
       run log [Txt "Error reading exclusion file: "; Exc e];
       ret ∅).

Definition exclude (df_filtered : DataFrame) (txt_path : option str)
  : M DataFrame :=
  match chosen txt_path with
  | Some txt_path =>
      run log [Txt "Loading exclusion emails from TXT file..."];
      do exclusion_emails <- load_exclusion_emails txt_path;
      if bool_decide (exclusion_emails = ∅) then ret df_filtered
      else
        let before_exclusion := len df_filtered in
        let email_column := EMAIL_COLUMN in
        do series <- lift (getitem df_filtered email_column);
        do lowered <- lift (str_lower rt series);
        let df_filtered :=
          select df_filtered (List.map negb (isin lowered exclusion_emails)) in
        let after_exclusion := len df_filtered in
        let excluded_count := (before_exclusion - after_exclusion)%nat in
        run log [Txt "Phase 2: Excluded "; Int excluded_count;
                 Txt " emails from TXT file"];
        ret df_filtered
  | None => ret df_filtered
  end.

Fixpoint validate_all (emails : list Cell) (valid_emails : list Cell)
  (invalid_count : nat) : M (list Cell * nat) :=
  match emails with
  | [] => ret (valid_emails, invalid_count)
  | email :: emails' =>
      if validate_email email
      then validate_all emails' (valid_emails ++ [email]) invalid_count
      else
        run log [Txt "Warning: Invalid email skipped: "; Obj email];
        validate_all emails' valid_emails (S invalid_count)
  end.

(** [process_files], run by the worker thread once a CSV file is chosen.
    Its [finally] clause re-enables the start button and emits nothing. *)
Definition process_files (csv_path : str) (txt_path : option str) : M unit :=
  try_except
    (run log [Txt "Starting processing..."];
     run log [Txt "CSV file: "; Base csv_path];
     run (match chosen txt_path with
          | Some p => log [Txt "TXT file: "; Base p]
          | None => log [Txt "No TXT file selected (no exclusions)"]
          end);
     run log [Txt "----------------------------------------"];
     run log [Txt "Loading CSV file..."];
     do df <- lift (read_csv fs csv_path);
     run log [Txt "Loaded "; Int (len df); Txt " rows from CSV"];
     let required_columns := [EMAIL_COLUMN; LOGIN_COLUMN] in
     let missing_columns :=
       List.filter (fun c => negb (has_column df c)) required_columns in
     do _ <- match missing_columns with
             | [] => ret tt
             | _ => raise (ValueError missing_columns)
             end;
     let initial_count := len df in
     do status <- lift (getitem df LOGIN_COLUMN);
     let df_filtered := select df (ne status NEVER_LOGGED_IN) in
     let filtered_count := len df_filtered in
     run log [Txt "Phase 1: Found "; Int filtered_count;
              Txt " users who have logged in"];
     if (filtered_count =? 0)%nat then
       run log [Txt "Warning: No users who have logged in found!"];
       showwarning "No Data" [Txt "No users who have logged in found."]
     else
       do df_filtered <- exclude df_filtered txt_path;
       do emails <- lift (getitem df_filtered EMAIL_COLUMN);
       do checked <- validate_all emails [] 0;
       let (valid_emails, invalid_count) := checked in
       run (if (0 <? invalid_count)%nat
            then log [Txt "Skipped "; Int invalid_count;
                      Txt " invalid email addresses"]
            else ret tt);
       match valid_emails with
       | [] =>
           run log [Txt "Error: No valid emails found!"];
           showerror "Error" [Txt "No valid email addresses found."]
       | first :: _ =>
           let domain := extract_domain (unicode rt) first in
           run log [Txt "Detected domain: "; Str domain];
           let domains :=
             list_to_set (C := gset str)
               (List.map (extract_domain (unicode rt)) valid_emails) in
           run (if (1 <? size domains)%nat
                then log [Txt "Warning: Multiple domains detected: ";
                          Strs (elements domains)]
                else ret tt);
           let output_filename := domain ++ lit "-to-delete.csv" in
           let output_path :=
             {| parent_of := csv_path; name := output_filename |} in
           let output_df := frame_of_column (lit "primaryEmail") valid_emails in
           run to_csv fs output_df output_path false;
           run log [Txt "Output saved: "; Str output_filename];
           run log [Txt "Location: "; Dir csv_path];
           run log [Txt "Total emails: "; Int (length valid_emails)];
           run log [Txt "----------------------------------------"];
           run log [Txt "Processing completed successfully!"];
           showinfo "Success"
             [Txt "Processing complete!"; Txt "Output file: ";
              Str output_filename; Txt "Location: "; Dir csv_path;
              Txt "Total emails: "; Int (length valid_emails)]
       end)
    (fun e =>
       run log [Txt "Error: "; Exc e];
       showerror "Error" [Txt "Error: "; Exc e]).

End Window.
End Gui.

(** ** The outcome of a run *)

(** The files a trace created. *)
Fixpoint files_written (t : list Event) : list (OutPath * CsvFile) :=
  match t with
  | [] => []
  | WriteFile p f :: t' => (p, f) :: files_written t'
  | _ :: t' => files_written t'
  end.

(** Whether a trace shows the user an error or a warning. *)
Definition is_notice (e : Event) : bool :=
  match e with
  | ShowWarning _ _ | ShowError _ _ => true
  | _ => false
  end.

Definition is_error_notice (e : Event) : bool :=
  match e with
  | ShowError _ _ => true
  | _ => false
  end.

Definition trace {A} (m : M A) : list Event := snd m.
Definition value {A} (m : M A) : result A := fst m.

(** The computation [m] after the events [t] have happened. *)
Definition after {A} (t : list Event) (m : M A) : M A :=
  (value m, t ++ trace m).

(** ** The email pattern as the specification words it

    A value matches the pattern over its full length when it is a local
    part, an [@], a domain part, a dot and a top level part, each over its
    own alphabet, the last of at least two letters. *)
Definition all_of (cls : char -> bool) (s : str) : Prop :=
  forallb cls s = true.

Definition full_match_email (s : str) : Prop :=
  ∃ l d t : str,
    s = l ++ AT :: d ++ DOT :: t ∧
    l ≠ [] ∧ all_of local_char l ∧
    d ≠ [] ∧ all_of domain_char d ∧
    (2 ≤ length t)%nat ∧ all_of is_alpha t.

(** The characters [A-Za-z0-9._-] *)
Definition safe_char (c : char) : bool :=
  is_alpha c || is_digit c || (c =? 46) || (c =? 95) || (c =? 45).

(** The substring after the first [@] ([None] without one). *)
Fixpoint after_first_at (s : str) : option str :=
  match s with
  | [] => None
  | c :: s' => if c =? AT then Some s' else after_first_at s'
  end.

(** ** The pipeline as the specification words it

    The specification speaks of rows and of three passes over them.  The
    definitions below state each pass on a single row of the loaded table;
    the theorems relate them to what the scripts compute. *)

Definition column_position (df : DataFrame) (c : str) : nat :=
  default O (col_index c (columns df)).

(** The value of a row's field [Email Address [Required]]. *)
Definition email_of (df : DataFrame) (row : list Cell) : Cell :=
  field (column_position df EMAIL_COLUMN) row.

(** The value of a row's field [Last Sign In [READ ONLY]]. *)
Definition status_of (df : DataFrame) (row : list Cell) : Cell :=
  field (column_position df LOGIN_COLUMN) row.

(** The status field is not exactly the string "Never logged in". *)
Definition logged_in (df : DataFrame) (row : list Cell) : bool :=
  negb (bool_decide (status_of df row = VStr NEVER_LOGGED_IN)).

(** The lower-cased value of the email field is a member of the set. *)
Definition excluded (u : Unicode) (X : gset str) (df : DataFrame)
  (row : list Cell) : bool :=
  match email_of df row with
  | VStr s => bool_decide (lower u s ∈ X)
  | _ => false
  end.

Definition survives (u : Unicode) (X : gset str) (df : DataFrame)
  (row : list Cell) : bool :=
  logged_in df row && negb (excluded u X df row) &&
  validate_email (email_of df row).

(** The exclusion set a run works with. *)
Definition exclusion_set (rt : Runtime) (fs : FileSystem)
  (txt_path : option str) : gset str :=
  match chosen txt_path with
  | Some p =>
      match read_lines fs p with
      | Ok lines => exclusion_of_lines (unicode rt) lines
      | Raise _ => ∅
      end
  | None => ∅
  end.

(** The emails a run hands to the writer, when it gets that far: the table
    loads with both mandatory columns, a row survives phase 1, pandas grants
    the [.str] accessor when there is something to exclude, and a valid
    email remains. *)
Definition emails_to_write (rt : Runtime) (fs : FileSystem) (csv_path : str)
  (txt_path : option str) : option (list Cell) :=
  match read_csv fs csv_path with
  | Raise _ => None
  | Ok df =>
      if has_column df EMAIL_COLUMN && has_column df LOGIN_COLUMN then
        let X := exclusion_set rt fs txt_path in
        let phase1 := List.filter (logged_in df) (rows df) in
        match phase1 with
        | [] => None
        | _ =>
            if bool_decide (X = ∅) ||
               str_accessor_ok rt (List.map (email_of df) phase1)
            then
              match List.map (email_of df)
                      (List.filter (survives (unicode rt) X df) (rows df))
              with
              | [] => None
              | emails => Some emails
              end
            else None
        end
      else None
  end.

(** The file a run of the script is expected to create. *)
Definition output_path (u : Unicode) (csv_path : str) (emails : list Cell)
  : OutPath :=
  {| parent_of := csv_path;
     name := extract_domain u (hd VNaN emails) ++ lit "-to-delete.csv" |}.

Definition output_file (emails : list Cell) : CsvFile :=
  {| header := [lit "primaryEmail"];
     records := List.map (fun e => [e]) emails |}.

(** Events that only inform: console and log lines. *)
Definition is_line (e : Event) : bool :=
  match e with
  | Print _ | Log _ => true
  | _ => false
  end.

Definition silent (t : list Event) : Prop := forallb is_line t = true.

(** [s.count(c)] *)
Definition count (c : char) (s : str) : nat :=
  length (List.filter (N.eqb c) s).

(** ** Sample runs

    The scenario of the specification: three accounts, one that never
    logged in, one valid, one with a malformed address; and a larger table
    with a second domain, an upper-case address and a missing address. *)

(** Tables for data that is ASCII. *)
Definition plain_unicode : Unicode :=
  {| unicode_lower := fun s => s;
     unicode_isspace := fun _ => false;
     unicode_isalnum := fun _ => false |}.

Definition is_str (c : Cell) : bool :=
  match c with
  | VStr _ => true
  | _ => false
  end.

Definition sample_runtime : Runtime :=
  {| unicode := plain_unicode;
     str_accessor_ok := existsb is_str |}.

Definition account (email status : string) : list Cell :=
  [VStr (lit email); VStr (lit status)].

Definition scenario_table : DataFrame :=
  {| columns := [EMAIL_COLUMN; LOGIN_COLUMN];
     rows := [account "a@x.com" "Never logged in";
              account "b@x.com" "2023-01-01";
              account "bad@@x" "2023-01-01"] |}.

Definition sample_table : DataFrame :=
  {| columns := [lit "Name"; EMAIL_COLUMN; LOGIN_COLUMN];
     rows := [VStr (lit "Ann") :: account "ann@x.com" "2024-03-01";
              VStr (lit "Bob") :: account "bob@x.com" "Never logged in";
              VStr (lit "Cy") :: account "Cy@Y.org" "never logged in";
              [VStr (lit "Di"); VNaN; VStr (lit "2024-04-02")];
              VStr (lit "Ed") :: account "ed@x.com" "2024-05-03";
              VStr (lit "Flo") :: account "flo(at)x.com" "2024-06-04"] |}.

(** A table without the login column. *)
Definition headless_table : DataFrame :=
  {| columns := [EMAIL_COLUMN];
     rows := [[VStr (lit "a@x.com")]] |}.

(** A table whose only address ends in a newline inside its quoted field. *)
Definition newline_table : DataFrame :=
  {| columns := [EMAIL_COLUMN; LOGIN_COLUMN];
     rows := [[VStr (lit "a@x.com" ++ [10]); VStr (lit "2023-01-01")]] |}.

Definition exclusion_lines : list str :=
  [lit "Contact: c@x.com please remove" ++ [10];
   lit "  ED@X.com  " ++ [10];
   [10];
   lit "ed@x.com" ++ [10];
   lit "no address here"].

(** A file system with four tables and one exclusion file; [locked.txt]
    cannot be read and nothing can be written next to [readonly.csv]. *)
Definition sample_fs : FileSystem :=
  {| read_csv := fun path =>
       if str_eqb path (lit "scenario.csv") then Ok scenario_table
       else if str_eqb path (lit "users.csv") then Ok sample_table
       else if str_eqb path (lit "readonly.csv") then Ok sample_table
       else if str_eqb path (lit "headless.csv") then Ok headless_table
       else if str_eqb path (lit "newline.csv") then Ok newline_table
       else Raise OSError;
     read_lines := fun path =>
       if str_eqb path (lit "exclude.txt") then Ok exclusion_lines
       else Raise OSError;
     writable := fun p => negb (str_eqb (parent_of p) (lit "readonly.csv")) |}.

(** ** The script with its dialogs

    [main] above is given the answers of the two dialogs.  Here the dialogs
    are part of the run: the file dialogs and the yes/no question are events
    of the trace, and what the user answers is a parameter. *)

Module Interactive.
Section Dialogs.
Variable rt : Runtime.
Variable fs : FileSystem.

(** [filedialog.askopenfilename(title=...)], answered with a path, or with
    [''] when the dialog is cancelled. *)
Definition askopenfilename (title : string) (answer : str) : M str :=
  run emit (AskOpenFileName title);
  ret answer.

(** [messagebox.askyesno(title, message)] *)
Definition askyesno (title : string) (m : message) (answer : bool) : M bool :=
  run emit (AskYesNo title m);
  ret answer.

Definition select_csv_file (answer : str) : M str :=
  do file_path <- askopenfilename "Select CSV file to process" answer;
  ret file_path.

Definition select_txt_file (yes : bool) (answer : str) : M (option str) :=
  do result <- askyesno "Optional Exclusion List"
                 [Txt "Do you want to select a TXT file with emails to exclude?"]
                 yes;
  if result then
    do file_path <- askopenfilename
                      "Select TXT file with emails to exclude (Optional)"
                      answer;
    ret (Some file_path)
  else ret None.

Definition main (csv_answer : str) (yes : bool) (txt_answer : str) : M unit :=
  run safe_print [Txt "CSV Email Processing Script"];
  run safe_print [Txt "========================================"];
  try_except
    (do csv_path <- select_csv_file csv_answer;
     match csv_path with
     | [] => safe_print [Txt "No CSV file selected. Exiting."]
     | _ =>
         do txt_path <- select_txt_file yes txt_answer;
         run (match chosen txt_path with
              | Some p => safe_print [Txt "TXT file selected: "; Str p]
              | None =>
                  safe_print [Txt "No TXT file selected (skipping exclusions)"]
              end);
         do processed <- process_csv rt fs csv_path txt_path;
         match processed with
         | None => safe_print [Txt "Processing failed or no data to output."]
         | Some (emails, domain, input_path) =>
             do output_path <- save_output fs emails domain input_path;
             match output_path with
             | Some _ => safe_print [Txt "Script completed successfully!"]
             | None => safe_print [Txt "Script completed with errors."]
             end
         end
     end)
    (fun e =>
       run safe_print [Txt "Unexpected error: "; Exc e];
       showerror "Unexpected Error"
         [Txt "An unexpected error occurred: "; Exc e]).

End Dialogs.
End Interactive.

(** What the two selection functions return, their dialogs left out:
    [select_csv_file] the answer of the file dialog, [''] when it is
    cancelled; [select_txt_file] the answer of the file dialog after a yes
    to the question, [None] after a no. *)
Definition select_csv_file (askopenfilename : str) : str := askopenfilename.

Definition select_txt_file (askyesno : bool) (askopenfilename : str)
  : option str :=
  if askyesno then Some askopenfilename else None.

(** ** The first email of a line

    An email is embedded in a line where the line is some text, the email,
    and some text.  The first email of a line is the embedded email that
    starts leftmost and, among those that start there, is the longest. *)
Definition first_email (s m : str) : Prop :=
  ∃ pre post, s = pre ++ m ++ post ∧ full_match_email m ∧
    ∀ pre' m' post', s = pre' ++ m' ++ post' → full_match_email m' →
      (length pre ≤ length pre')%nat ∧
      (length pre' = length pre → length m' ≤ length m)%nat.

(** ** More observations of a trace *)

(** The boxes that tell the outcome of a run ([showinfo], [showwarning],
    [showerror]), in order. *)
Definition is_dialog (e : Event) : bool :=
  match e with
  | ShowWarning _ _ | ShowError _ _ | ShowInfo _ _ => true
  | _ => false
  end.

Definition dialogs (t : list Event) : list Event := List.filter is_dialog t.

(** The dialogs that ask the user something. *)
Definition is_ask (e : Event) : bool :=
  match e with
  | AskYesNo _ _ | AskOpenFileName _ => true
  | _ => false
  end.

(** Every call of [messagebox]: the question and the outcome boxes. *)
Definition is_messagebox (e : Event) : bool :=
  match e with
  | AskYesNo _ _ | ShowWarning _ _ | ShowError _ _ | ShowInfo _ _ => true
  | _ => false
  end.

(** Every call of [filedialog]. *)
Definition is_filedialog (e : Event) : bool :=
  match e with
  | AskOpenFileName _ => true
  | _ => false
  end.

(** Whether a trace shows a success box. *)
Definition is_info (e : Event) : bool :=
  match e with
  | ShowInfo _ _ => true
  | _ => false
  end.

(** A record of the output that is one valid email string. *)
Definition valid_record (r : list Cell) : Prop :=
  ∃ s, r = [VStr s] ∧ validate_email (VStr s) = true.

(** The part of a string before its first [@] (all of it without one). *)
Fixpoint until_at (s : str) : str :=
  match s with
  | [] => []
  | c :: s' => if c =? AT then [] else c :: until_at s'
  end.

(** The mandatory columns a table lacks, in the order of
    [required_columns]. *)
Definition missing_columns (df : DataFrame) : list str :=
  List.filter (fun c => negb (has_column df c)) [EMAIL_COLUMN; LOGIN_COLUMN].

(** The text of the success box, the same in both front ends. *)
Definition success_text (u : Unicode) (csv_path : str) (emails : list Cell)
  : message :=
  [Txt "Processing complete!"; Txt "Output file: ";
   Str (extract_domain u (hd VNaN emails) ++ lit "-to-delete.csv");
   Txt "Location: "; Dir csv_path;
   Txt "Total emails: "; Int (length emails)].

(** The one message box a run of the script ends on, case by case. *)
Definition script_box (rt : Runtime) (fs : FileSystem) (csv_path : str)
  (txt_path : option str) : Event :=
  match read_csv fs csv_path with
  | Raise e => ShowError "Error" [Txt "Error processing CSV: "; Exc e]
  | Ok df =>
      match missing_columns df with
      | _ :: _ =>
          ShowError "Error"
            [Txt "Error processing CSV: "; Exc (ValueError (missing_columns df))]
      | [] =>
          match List.filter (logged_in df) (rows df) with
          | [] =>
              ShowWarning "No Data"
                [Txt "No users who have logged in found. Output will be empty."]
          | phase1 =>
              if bool_decide (exclusion_set rt fs txt_path = ∅) ||
                 str_accessor_ok rt (List.map (email_of df) phase1)
              then
                match emails_to_write rt fs csv_path txt_path with
                | None =>
                    ShowWarning "No Valid Emails"
                      [Txt "No valid email addresses found after processing."]
                | Some emails =>
                    if writable fs (output_path (unicode rt) csv_path emails)
                    then ShowInfo "Success"
                           (success_text (unicode rt) csv_path emails)
                    else ShowError "Error"
                           [Txt "Error saving output: "; Exc OSError]
                end
              else ShowError "Error"
                     [Txt "Error processing CSV: "; Exc AttributeError]
          end
      end
  end.

(** The one message box a run of the window ends on. *)
Definition window_box (rt : Runtime) (fs : FileSystem) (csv_path : str)
  (txt_path : option str) : Event :=
  match read_csv fs csv_path with
  | Raise e => ShowError "Error" [Txt "Error: "; Exc e]
  | Ok df =>
      match missing_columns df with
      | _ :: _ =>
          ShowError "Error" [Txt "Error: "; Exc (ValueError (missing_columns df))]
      | [] =>
          match List.filter (logged_in df) (rows df) with
          | [] => ShowWarning "No Data" [Txt "No users who have logged in found."]
          | phase1 =>
              if bool_decide (exclusion_set rt fs txt_path = ∅) ||
                 str_accessor_ok rt (List.map (email_of df) phase1)
              then
                match emails_to_write rt fs csv_path txt_path with
                | None => ShowError "Error" [Txt "No valid email addresses found."]
                | Some emails =>
                    if writable fs (output_path (unicode rt) csv_path emails)
                    then ShowInfo "Success"
                           (success_text (unicode rt) csv_path emails)
                    else ShowError "Error" [Txt "Error: "; Exc OSError]
                end
              else ShowError "Error" [Txt "Error: "; Exc AttributeError]
          end
      end
  end.

(** Whether a record of the output holds an address of the set, letter case
    apart. *)
Definition record_in (u : Unicode) (X : gset str) (r : list Cell) : bool :=
  match r with
  | [VStr s] => bool_decide (lower u s ∈ X)
  | _ => false
  end.

(** A file system whose exclusion file [notes.txt] names no address. *)
Definition notes_fs : FileSystem :=
  {| read_csv := read_csv sample_fs;
     read_lines := fun path =>
       if str_eqb path (lit "notes.txt")
       then Ok [lit "remove these users" ++ [10]; [10]; lit "(none yet)"]
       else Raise OSError;
     writable := writable sample_fs |}.

(** ** The state of the window: [CSVEmailProcessorGUI] *)

Module Window.

Inductive widget_state := normal | disabled.

(** The attributes and widgets the methods read and write. *)
Record t := {
  csv_path : option str;
  txt_path : option str;
  csv_label : message;
  csv_clear_button : widget_state;
  txt_label : message;
  txt_clear_button : widget_state;
  start_button : widget_state;
  log_text : list message
}.

(** [self.log(message)] *)
Definition log (m : message) (w : t) : t :=
  {| csv_path := csv_path w; txt_path := txt_path w;
     csv_label := csv_label w; csv_clear_button := csv_clear_button w;
     txt_label := txt_label w; txt_clear_button := txt_clear_button w;
     start_button := start_button w;
     log_text := log_text w ++ [m] |}.

(** [__init__] and [setup_ui] *)
Definition init : t :=
  fold_left (fun w m => log m w)
    [[Txt "Welcome to CSV Email Processor!"];
     [Txt "1. Select a CSV file (required)"];
     [Txt "2. Optionally select a TXT file for exclusions"];
     [Txt "3. Use 'Clear' buttons to remove selections if needed"];
     [Txt "4. Click 'Start Processing' when ready"];
     [Txt "5. Watch this log for processing updates"];
     [Txt "------------------------------------------------------------"]]
    {| csv_path := None; txt_path := None;
       csv_label := [Txt "No file selected"];
       csv_clear_button := disabled;
       txt_label := [Txt "No file selected (optional)"];
       txt_clear_button := disabled;
       start_button := normal;
       log_text := [] |}.

(** [select_csv_file], given the answer of the file dialog. *)
Definition select_csv_file (file_path : str) (w : t) : t :=
  match file_path with
  | _ :: _ =>
      log [Txt "Selected CSV: "; Base file_path]
        {| csv_path := Some file_path; txt_path := txt_path w;
           csv_label := [Base file_path]; csv_clear_button := normal;
           txt_label := txt_label w; txt_clear_button := txt_clear_button w;
           start_button := start_button w; log_text := log_text w |}
  | [] =>
      {| csv_path := None; txt_path := txt_path w;
         csv_label := [Txt "No file selected"]; csv_clear_button := disabled;
         txt_label := txt_label w; txt_clear_button := txt_clear_button w;
         start_button := start_button w; log_text := log_text w |}
  end.

(** [select_txt_file], given the answer of the file dialog. *)
Definition select_txt_file (file_path : str) (w : t) : t :=
  match file_path with
  | _ :: _ =>
      log [Txt "Selected TXT: "; Base file_path]
        {| csv_path := csv_path w; txt_path := Some file_path;
           csv_label := csv_label w; csv_clear_button := csv_clear_button w;
           txt_label := [Base file_path]; txt_clear_button := normal;
           start_button := start_button w; log_text := log_text w |}
  | [] =>
      {| csv_path := csv_path w; txt_path := None;
         csv_label := csv_label w; csv_clear_button := csv_clear_button w;
         txt_label := [Txt "No file selected (optional)"];
         txt_clear_button := disabled;
         start_button := start_button w; log_text := log_text w |}
  end.

Definition clear_csv_file (w : t) : t :=
  log [Txt "Cleared CSV file selection"]
    {| csv_path := None; txt_path := txt_path w;
       csv_label := [Txt "No file selected"]; csv_clear_button := disabled;
       txt_label := txt_label w; txt_clear_button := txt_clear_button w;
       start_button := start_button w; log_text := log_text w |}.

Definition clear_txt_file (w : t) : t :=
  log [Txt "Cleared TXT file selection"]
    {| csv_path := csv_path w; txt_path := None;
       csv_label := csv_label w; csv_clear_button := csv_clear_button w;
       txt_label := [Txt "No file selected (optional)"];
       txt_clear_button := disabled;
       start_button := start_button w; log_text := log_text w |}.

(** [start_processing]: without a CSV file an error box and nothing else;
    otherwise the start button is disabled and the worker thread is started
    on [process_files], which takes no argument: it reads [self.csv_path]
    and [self.txt_path] itself while it runs.  The result holds the new
    state, the box shown, and whether a worker was started. *)
Definition start_processing (w : t) : t * list Event * bool :=
  match chosen (csv_path w) with
  | None =>
      (w, [ShowError "Error" [Txt "Please select a CSV file first!"]], false)
  | Some _ =>
      ({| csv_path := csv_path w; txt_path := txt_path w;
          csv_label := csv_label w; csv_clear_button := csv_clear_button w;
          txt_label := txt_label w; txt_clear_button := txt_clear_button w;
          start_button := disabled; log_text := log_text w |},
       [], true)
  end.

(** [processing_finished] *)
Definition processing_finished (w : t) : t :=
  {| csv_path := csv_path w; txt_path := txt_path w;
     csv_label := csv_label w; csv_clear_button := csv_clear_button w;
     txt_label := txt_label w; txt_clear_button := txt_clear_button w;
     start_button := normal; log_text := log_text w |}.

(** What the user and the worker can do to the window. *)
Inductive action :=
| SelectCsv (answer : str)
| SelectTxt (answer : str)
| ClearCsv
| ClearTxt
| Start
| Finished.

Definition step (w : t) (a : action) : t :=
  match a with
  | SelectCsv answer => select_csv_file answer w
  | SelectTxt answer => select_txt_file answer w
  | ClearCsv => clear_csv_file w
  | ClearTxt => clear_txt_file w
  | Start => fst (fst (start_processing w))
  | Finished => processing_finished w
  end.

Definition reach (actions : list action) : t := fold_left step actions init.

(** The selection a list of actions leaves: the last answer counts, a
    cancelled dialog and Clear leave none. *)
Fixpoint last_csv (actions : list action) (selected : option str)
  : option str :=
  match actions with
  | [] => selected
  | SelectCsv answer :: rest => last_csv rest (chosen (Some answer))
  | ClearCsv :: rest => last_csv rest None
  | _ :: rest => last_csv rest selected
  end.

Fixpoint last_txt (actions : list action) (selected : option str)
  : option str :=
  match actions with
  | [] => selected
  | SelectTxt answer :: rest => last_txt rest (chosen (Some answer))
  | ClearTxt :: rest => last_txt rest None
  | _ :: rest => last_txt rest selected
  end.

(** What a label shows for a selection. *)
Definition label_for (placeholder : string) (selected : option str) : message :=
  match selected with
  | Some path => [Base path]
  | None => [Txt placeholder]
  end.

Definition button_for (selected : option str) : widget_state :=
  match selected with
  | Some _ => normal
  | None => disabled
  end.

End Window.
(** ** Facts about the matcher *)

Lemma all_of_app cls (a b : str) :
  all_of cls (a ++ b) ↔ all_of cls a ∧ all_of cls b.
Proof. unfold all_of. rewrite forallb_app, andb_true_iff. tauto. Qed.

Lemma all_of_cons cls c (a : str) :
  all_of cls (c :: a) ↔ cls c = true ∧ all_of cls a.
Proof. unfold all_of. simpl. rewrite andb_true_iff. tauto. Qed.

(** A successful repetition consumed a run of the class that is long
    enough, and the continuation accepted what followed. *)
Lemma rep_inv cls k : ∀ s lo r,
  Re.rep cls k lo s = Some r →
  ∃ w u, s = w ++ u ∧ all_of cls w ∧ (lo ≤ length w)%nat ∧ k u = Some r.
Proof.
  induction s as [|c s IH]; intros lo r H; simpl in H.
  - destruct lo; [|discriminate].
    exists [], []. repeat split; auto.
  - assert (Hstop : match lo with O => k (c :: s) | S _ => None end = Some r →
      ∃ w u, c :: s = w ++ u ∧ all_of cls w ∧ (lo ≤ length w)%nat ∧
             k u = Some r).
    { destruct lo; [|discriminate]. intros Hk.
      exists [], (c :: s). repeat split; auto. }
    destruct (cls c) eqn:Hc; [|auto].
    destruct (Re.rep cls k (Nat.pred lo) s) as [r'|] eqn:Hrec; [|auto].
    injection H as ->.
    destruct (IH _ _ Hrec) as (w & u & -> & Hw & Hlo & Hk).
    exists (c :: w), u. repeat split; auto.
    + apply all_of_cons; auto.
    + simpl. lia.
Qed.

(** A repetition fails only when every split fails. *)
Lemma rep_none cls k : ∀ s lo,
  (∀ w u, s = w ++ u → all_of cls w → (lo ≤ length w)%nat → k u = None) →
  Re.rep cls k lo s = None.
Proof.
  induction s as [|c s IH]; intros lo H; simpl.
  - destruct lo; auto. apply (H [] []); simpl; auto. reflexivity.
  - assert (Hstop : match lo with O => k (c :: s) | S _ => None end = None).
    { destruct lo; auto. apply (H [] (c :: s)); simpl; auto. reflexivity. }
    destruct (cls c) eqn:Hc; auto.
    rewrite IH; auto.
    intros w u -> Hw Hlo. apply (H (c :: w) u); auto.
    + apply all_of_cons; auto.
    + simpl. lia.
Qed.

Lemma rep_complete cls k s lo w u :
  s = w ++ u → all_of cls w → (lo ≤ length w)%nat → is_Some (k u) →
  is_Some (Re.rep cls k lo s).
Proof.
  intros Hs Hw Hlo [r Hk].
  destruct (Re.rep cls k lo s) as [r'|] eqn:E; [eauto|].
  exfalso. revert lo w Hs Hw Hlo E.
  induction s as [|c s IH]; intros lo w Hs Hw Hlo E; simpl in E.
  - destruct w; [|discriminate]. simpl in *. subst u.
    assert (lo = O) by lia. subst. cbn in E. congruence.
  - destruct w as [|c' w]; simpl in *.
    + subst u. assert (lo = O) by lia. subst. cbn in E.
      destruct (cls c); [destruct (Re.rep cls k 0 s)|]; congruence.
    + injection Hs as Hc' Hs'. subst c'.
      apply all_of_cons in Hw as [Hc Hw]. rewrite Hc in E.
      destruct (Re.rep cls k (Nat.pred lo) s) eqn:E'; [discriminate|].
      apply (IH (Nat.pred lo) w); auto. lia.
Qed.

(** Greediness: the longest run after which the continuation succeeds is
    the one that is taken. *)
Lemma rep_greedy cls k : ∀ w u lo r,
  all_of cls w → (lo ≤ length w)%nat → k u = Some r →
  (∀ w' u', w' ≠ [] → u = w' ++ u' → all_of cls w' → k u' = None) →
  Re.rep cls k lo (w ++ u) = Some r.
Proof.
  induction w as [|c w IH]; intros u lo r Hw Hlo Hk Hlonger; simpl in *.
  - assert (lo = O) by lia. subst lo.
    destruct u as [|c u]; simpl; auto.
    destruct (cls c) eqn:Hc; auto.
    rewrite rep_none; auto.
    intros w' u' -> Hw' _.
    apply (Hlonger (c :: w') u'); [easy | reflexivity |].
    apply all_of_cons; auto.
  - apply all_of_cons in Hw as [Hc Hw]. rewrite Hc.
    rewrite (IH u (Nat.pred lo) r); auto. lia.
Qed.

(** ** Facts about the character classes *)

Ltac bool_to_prop :=
  repeat rewrite ?orb_true_iff, ?andb_true_iff, ?orb_false_iff,
    ?andb_false_iff, ?N.leb_le, ?N.eqb_eq, ?N.ltb_lt, ?N.leb_gt,
    ?N.eqb_neq, ?N.ltb_ge in *.

Ltac classes :=
  unfold local_char, domain_char, safe_char, is_alpha, is_lower, is_upper,
    is_digit, is_ascii, in_range, AT, DOT in *;
  bool_to_prop; lia.

Lemma alpha_is_domain c : is_alpha c = true → domain_char c = true.
Proof. classes. Qed.

Lemma alpha_not_dot c : is_alpha c = true → (c =? DOT) = false.
Proof. classes. Qed.

Lemma local_not_at c : local_char c = true → (c =? AT) = false.
Proof. classes. Qed.

Lemma domain_not_at c : domain_char c = true → (c =? AT) = false.
Proof. classes. Qed.

Lemma domain_is_safe c : domain_char c = true → safe_char c = true.
Proof. classes. Qed.

Lemma domain_is_ascii c : domain_char c = true → is_ascii c = true.
Proof. classes. Qed.

Lemma ascii_word_safe c :
  is_ascii c = true →
  is_alpha c || is_digit c || (c =? 95) || (c =? 46) || (c =? 45) =
  safe_char c.
Proof.
  intros _. unfold safe_char.
  destruct (is_alpha c), (is_digit c), (c =? 95), (c =? 46), (c =? 45);
    reflexivity.
Qed.

(** On ASCII the class kept for the file name is [A-Za-z0-9._-]. *)
Lemma filename_char_ascii u c :
  is_ascii c = true → filename_char u c = safe_char c.
Proof.
  intros H. unfold filename_char, isword. rewrite H.
  now apply ascii_word_safe.
Qed.

Lemma all_of_impl (P Q : char → bool) (s : str) :
  (∀ c, P c = true → Q c = true) → all_of P s → all_of Q s.
Proof.
  intros HPQ. unfold all_of. rewrite !forallb_forall. auto.
Qed.

(** ** The pattern matches what the specification describes *)

Lemma match_email_inv p s r :
  Re.match_here (EMAIL_BODY ++ p) s = Some r →
  ∃ m u, s = m ++ u ∧ full_match_email m ∧ Re.match_here p u = Some r.
Proof.
  unfold EMAIL_BODY. cbn [app Re.match_here]. intros H.
  apply rep_inv in H as (l & u1 & -> & Hl & Hl1 & H).
  destruct u1 as [|x u1]; [discriminate|].
  destruct (x =? AT) eqn:Hx; [|discriminate].
  apply N.eqb_eq in Hx as ->.
  apply rep_inv in H as (d & u2 & -> & Hd & Hd1 & H).
  destruct u2 as [|y u2]; [discriminate|].
  destruct (y =? DOT) eqn:Hy; [|discriminate].
  apply N.eqb_eq in Hy as ->.
  apply rep_inv in H as (t & u & -> & Ht & Ht2 & H).
  exists (l ++ AT :: d ++ DOT :: t), u. split; [|split; [|exact H]].
  - rewrite <- !app_assoc. simpl. rewrite <- app_assoc. reflexivity.
  - exists l, d, t. repeat split; auto.
    + intros ->. simpl in Hl1. lia.
    + intros ->. simpl in Hd1. lia.
Qed.

Lemma match_email_complete p m u :
  full_match_email m → is_Some (Re.match_here p u) →
  is_Some (Re.match_here (EMAIL_BODY ++ p) (m ++ u)).
Proof.
  intros (l & d & t & -> & Hl0 & Hl & Hd0 & Hd & Ht2 & Ht) Hp.
  unfold EMAIL_BODY. cbn [app Re.match_here].
  eapply (rep_complete _ _ _ _ l (AT :: d ++ DOT :: t ++ u)); auto.
  - rewrite <- !app_assoc. simpl. rewrite <- app_assoc. reflexivity.
  - destruct l; [congruence|simpl; lia].
  - rewrite N.eqb_refl.
    eapply (rep_complete _ _ _ _ d (DOT :: t ++ u)); auto.
    + destruct d; [congruence|simpl; lia].
    + rewrite N.eqb_refl.
      eapply (rep_complete _ _ _ _ t u); auto.
Qed.

(** Suffixes of a run of letters: the part of the pattern after the domain
    fails on each of them. *)
Lemma after_domain_fails (k : str → option str) (t : str) :
  all_of is_alpha t →
  match t with
  | x :: s' => if x =? DOT then k s' else None
  | [] => None
  end = None.
Proof.
  destruct t as [|x t]; auto. intros [Hx _]%all_of_cons.
  now rewrite (alpha_not_dot _ Hx).
Qed.

(** On a value that is an email over its full length, the greedy matcher
    consumes all of it. *)
Lemma match_email_exact m :
  full_match_email m → Re.match_here EMAIL_BODY m = Some [].
Proof.
  intros (l & d & t & -> & Hl0 & Hl & Hd0 & Hd & Ht2 & Ht).
  unfold EMAIL_BODY. cbn [Re.match_here].
  apply rep_greedy; auto.
  - destruct l; [congruence|simpl; lia].
  - rewrite N.eqb_refl.
    apply rep_greedy; auto.
    + destruct d; [congruence|simpl; lia].
    + rewrite N.eqb_refl.
      rewrite <- (app_nil_r t) at 1. apply rep_greedy; auto.
      intros w' u' Hw' Hu. destruct w'; [congruence|discriminate].
    + intros w' u' Hw' Hu Hcls.
      destruct w' as [|c w']; [congruence|].
      injection Hu as Hc Hu. subst c t.
      apply after_domain_fails.
      apply all_of_app in Ht as [_ Ht]. exact Ht.
  - intros w' u' Hw' Hu Hcls.
    destruct w' as [|c w']; [congruence|].
    injection Hu as <- _. apply all_of_cons in Hcls as [Hc _].
    discriminate.
Qed.

Lemma take_app_length_diff (m r : str) :
  take (length (m ++ r) - length r) (m ++ r) = m.
Proof.
  rewrite length_app.
  replace (length m + length r - length r)%nat with (length m) by lia.
  apply take_app_length.
Qed.

Lemma search_unfold p s :
  Re.search p s =
  match Re.match_here p s with
  | Some r => Some (take (length s - length r)%nat s)
  | None => match s with [] => None | _ :: s' => Re.search p s' end
  end.
Proof. destruct s; reflexivity. Qed.

Lemma search_here (s m : str) :
  (∃ r, Re.match_here EMAIL_BODY s = Some r ∧
        take (length s - length r)%nat s = m) →
  full_match_email m ∧ ∃ pre post, s = pre ++ m ++ post.
Proof.
  intros (r & E & <-).
  rewrite <- (app_nil_r EMAIL_BODY) in E.
  apply match_email_inv in E as (m' & u & Hs & Hm & Hu).
  simpl in Hu. injection Hu as ->.
  rewrite Hs, take_app_length_diff. split; auto.
  exists [], r. reflexivity.
Qed.

(** What [search] returns is an email embedded in the line. *)
Lemma search_sound : ∀ s m,
  Re.search EMAIL_BODY s = Some m →
  full_match_email m ∧ ∃ pre post, s = pre ++ m ++ post.
Proof.
  induction s as [|c s IH]; intros m H; rewrite search_unfold in H.
  - destruct (Re.match_here EMAIL_BODY []) as [r|] eqn:E; [|discriminate].
    injection H as H. apply search_here; eauto.
  - destruct (Re.match_here EMAIL_BODY (c :: s)) as [r|] eqn:E.
    + injection H as H. apply search_here; eauto.
    + destruct (IH _ H) as (Hm & pre & post & ->). split; auto.
      exists (c :: pre), post. reflexivity.
Qed.

(** A line with an email somewhere inside is found by [search]. *)
Lemma search_complete : ∀ pre m post,
  full_match_email m → is_Some (Re.search EMAIL_BODY (pre ++ m ++ post)).
Proof.
  assert (Hhere : ∀ m post, full_match_email m →
            is_Some (Re.match_here EMAIL_BODY (m ++ post))).
  { intros m post Hm. rewrite <- (app_nil_r EMAIL_BODY).
    apply match_email_complete; simpl; eauto. }
  induction pre as [|c pre IH]; intros m post Hm; rewrite search_unfold.
  - change ([] ++ m ++ post) with (m ++ post).
    destruct (Hhere m post Hm) as [r Hr]. rewrite Hr. eauto.
  - destruct (Re.match_here EMAIL_BODY ((c :: pre) ++ m ++ post)); eauto.
    apply (IH m post Hm).
Qed.

(** A line that is an email over its full length is returned whole. *)
Lemma search_exact m :
  full_match_email m → Re.search EMAIL_BODY m = Some m.
Proof.
  intros Hm. rewrite search_unfold, (match_email_exact m Hm).
  simpl. rewrite Nat.sub_0_r, firstn_all. reflexivity.
Qed.

(** ** The validator *)

Lemma eol_inv (u r : str) :
  Re.match_here [Re.Eol] u = Some r → u = [] ∨ u = [10].
Proof.
  simpl. destruct u as [|c [|c' u]]; auto; try discriminate.
  destruct (c =? 10) eqn:Hc; [|discriminate].
  apply N.eqb_eq in Hc as ->. auto.
Qed.

(** [validate_email] accepts the values that are an email over their full
    length, and those that are one followed by a single final newline. *)
Lemma validate_email_iff (s : str) :
  validate_email (VStr s) = true ↔
  full_match_email s ∨ ∃ s', s = s' ++ [10] ∧ full_match_email s'.
Proof.
  unfold validate_email, Re.is_match, EMAIL_PATTERN. split.
  - destruct (Re.match_here _ s) as [r|] eqn:E; [intros _|discriminate].
    apply match_email_inv in E as (m & u & -> & Hm & Hu).
    apply eol_inv in Hu as [-> | ->].
    + left. now rewrite app_nil_r.
    + right. eauto.
  - intros H.
    assert (Hs : is_Some (Re.match_here (EMAIL_BODY ++ [Re.Eol]) s)).
    { destruct H as [H | (s' & -> & H)].
      - rewrite <- (app_nil_r s). apply match_email_complete; simpl; eauto.
      - apply match_email_complete; simpl; eauto. }
    destruct Hs as [r ->]. reflexivity.
Qed.

(** The parts of an accepted value. *)
Lemma valid_email_parts (s : str) :
  validate_email (VStr s) = true →
  ∃ l d t tail : str,
    s = l ++ AT :: (d ++ DOT :: t) ++ tail ∧
    l ≠ [] ∧ all_of local_char l ∧ d ≠ [] ∧ all_of domain_char d ∧
    (2 ≤ length t)%nat ∧ all_of is_alpha t ∧ (tail = [] ∨ tail = [10]).
Proof.
  intros [H | (s' & -> & H)]%validate_email_iff;
    destruct H as (l & d & t & -> & ?).
  - exists l, d, t, []. rewrite app_nil_r. intuition.
  - exists l, d, t, [10]. rewrite <- app_assoc. simpl. intuition.
Qed.

Lemma split_no_sep sep (s : str) :
  all_of (fun c => negb (c =? sep)) s → split sep s = [s].
Proof.
  induction s as [|c s IH]; auto.
  intros [Hc Hs]%all_of_cons. simpl.
  apply negb_true_iff in Hc. rewrite Hc, IH; auto.
Qed.

Lemma split_at_first sep (l rest : str) :
  all_of (fun c => negb (c =? sep)) l →
  split sep (l ++ sep :: rest) = l :: split sep rest.
Proof.
  induction l as [|c l IH]; simpl.
  - now rewrite N.eqb_refl.
  - intros [Hc Hl]%all_of_cons. apply negb_true_iff in Hc.
    rewrite Hc, IH; auto.
Qed.


Lemma count_app c (a b : str) : count c (a ++ b) = (count c a + count c b)%nat.
Proof. unfold count. now rewrite List.filter_app, length_app. Qed.

Lemma count_none c (s : str) :
  all_of (fun x => negb (x =? c)) s → count c s = O.
Proof.
  unfold count. induction s as [|x s IH]; auto.
  intros [Hx Hs]%all_of_cons. simpl.
  apply negb_true_iff in Hx. rewrite N.eqb_sym, Hx. auto.
Qed.

Lemma contains_app_sep c (l rest : str) : contains c (l ++ c :: rest) = true.
Proof.
  unfold contains. rewrite existsb_app. simpl.
  rewrite N.eqb_refl. now rewrite orb_true_r.
Qed.

Lemma filter_all (cls : char → bool) (s : str) :
  all_of cls s → List.filter cls s = s.
Proof.
  induction s as [|c s IH]; auto.
  intros [Hc Hs]%all_of_cons. simpl. rewrite Hc, IH; auto.
Qed.

Lemma no_at_local l : all_of local_char l → all_of (fun c => negb (c =? AT)) l.
Proof.
  apply all_of_impl. intros c H. now rewrite (local_not_at c H).
Qed.

Lemma no_at_domain d :
  all_of domain_char d → all_of (fun c => negb (c =? AT)) d.
Proof.
  apply all_of_impl. intros c H. now rewrite (domain_not_at c H).
Qed.

(** The domain with its dot and top level part is over the domain
    alphabet. *)
Lemma domain_part_chars (d t : str) :
  all_of domain_char d → all_of is_alpha t →
  all_of domain_char (d ++ DOT :: t).
Proof.
  intros Hd Ht. apply all_of_app. split; auto.
  apply all_of_cons. split; [reflexivity|].
  revert Ht. apply all_of_impl, alpha_is_domain.
Qed.

Lemma tail_no_at (tail : str) :
  tail = [] ∨ tail = [10] → all_of (fun c => negb (c =? AT)) tail.
Proof. intros [-> | ->]; reflexivity. Qed.

Lemma filename_filter_domain u (x tail : str) :
  all_of domain_char x → tail = [] ∨ tail = [10] →
  List.filter (filename_char u) (x ++ tail) = x.
Proof.
  intros Hx Htail. rewrite List.filter_app, filter_all.
  - destruct Htail as [-> | ->]; simpl; now rewrite app_nil_r.
  - revert Hx. apply all_of_impl. intros c Hc.
    rewrite filename_char_ascii by now apply domain_is_ascii.
    now apply domain_is_safe.
Qed.


(** On an accepted value [extract_domain] returns the domain part. *)
Lemma extract_domain_valid u (s : str) :
  validate_email (VStr s) = true →
  ∃ l d t tail : str,
    s = l ++ AT :: (d ++ DOT :: t) ++ tail ∧
    all_of local_char l ∧ d ≠ [] ∧ all_of domain_char d ∧
    (2 ≤ length t)%nat ∧ all_of is_alpha t ∧ (tail = [] ∨ tail = [10]) ∧
    extract_domain u (VStr s) = d ++ DOT :: t.
Proof.
  intros (l & d & t & tail & -> & Hl0 & Hl & Hd0 & Hd & Ht2 & Ht & Htail)
    %valid_email_parts.
  exists l, d, t, tail. repeat (split; [assumption || reflexivity|]).
  unfold extract_domain. rewrite contains_app_sep.
  rewrite split_at_first by now apply no_at_local.
  rewrite split_no_sep.
  - apply filename_filter_domain; auto. now apply domain_part_chars.
  - apply all_of_app. split; [|now apply tail_no_at].
    apply no_at_domain. now apply domain_part_chars.
Qed.

(** ** Traces *)

Lemma silent_app t1 t2 : silent (t1 ++ t2) ↔ silent t1 ∧ silent t2.
Proof. unfold silent. rewrite forallb_app, andb_true_iff. tauto. Qed.

Lemma files_written_app t1 t2 :
  files_written (t1 ++ t2) = files_written t1 ++ files_written t2.
Proof.
  induction t1 as [|e t1 IH]; auto.
  destruct e; simpl; rewrite IH; reflexivity.
Qed.

Lemma silent_files t : silent t → files_written t = [].
Proof.
  unfold silent. induction t as [|e t IH]; auto.
  simpl. intros [He Ht]%andb_true_iff. destruct e; try discriminate; auto.
Qed.

Lemma silent_quiet (f : Event → bool) t :
  (∀ e, is_line e = true → f e = false) → silent t → existsb f t = false.
Proof.
  unfold silent. intros Hf. induction t as [|e t IH]; auto.
  simpl. intros [He Ht]%andb_true_iff. rewrite (Hf e He). auto.
Qed.

Lemma silent_no_notice t : silent t → existsb is_notice t = false.
Proof. apply silent_quiet. now destruct e. Qed.

Lemma silent_no_error t : silent t → existsb is_error_notice t = false.
Proof. apply silent_quiet. now destruct e. Qed.

Lemma silent_nil : silent [].
Proof. reflexivity. Qed.

Lemma silent_print m t : silent t → silent (Print m :: t).
Proof. auto. Qed.

Lemma silent_log m t : silent t → silent (Log m :: t).
Proof. auto. Qed.

Lemma silent_app_intro t1 t2 : silent t1 → silent t2 → silent (t1 ++ t2).
Proof. intros. now apply silent_app. Qed.

Create HintDb trace.
#[local] Hint Resolve silent_nil silent_print silent_log silent_app_intro
  : trace.

(** Stepping through a computation. *)
Lemma bind_ok {A B} (a : A) t (f : A → M B) :
  bind (Ok a, t) f = after t (f a).
Proof. unfold bind, after. now destruct (f a). Qed.

Lemma bind_raise {A B} e t (f : A → M B) : bind (Raise e, t) f = (Raise e, t).
Proof. reflexivity. Qed.

Lemma bind_after {A B} t (m : M A) (f : A → M B) :
  bind (after t m) f = after t (bind m f).
Proof.
  destruct m as [[a|e] t']; unfold after, bind; simpl.
  - destruct (f a). simpl. now rewrite app_assoc.
  - reflexivity.
Qed.

Lemma try_ok {A} (a : A) t h : try_except (Ok a, t) h = (Ok a, t).
Proof. reflexivity. Qed.

Lemma try_raise {A} e t (h : Exn → M A) :
  try_except (Raise e, t) h = after t (h e).
Proof. unfold try_except, after. now destruct (h e). Qed.

Lemma try_after {A} t (m : M A) h :
  try_except (after t m) h = after t (try_except m h).
Proof.
  destruct m as [[a|e] t']; unfold after, try_except; simpl.
  - reflexivity.
  - destruct (h e). simpl. now rewrite app_assoc.
Qed.

Lemma after_ok {A} t (a : A) t' : after t (Ok a, t') = (Ok a, t ++ t').
Proof. reflexivity. Qed.

Lemma after_raise {A} t e t' :
  after t (Raise e, t' : list Event) = (Raise e : result A, t ++ t').
Proof. reflexivity. Qed.

Lemma after_after {A} t t' (m : M A) :
  after t (after t' m) = after (t ++ t') m.
Proof. unfold after. simpl. now rewrite app_assoc. Qed.

Ltac mstep :=
  repeat (progress (
    unfold lift, ret, raise, emit, safe_print, showwarning, showerror,
      showinfo, Gui.log;
    rewrite ?bind_ok, ?bind_raise, ?bind_after, ?try_ok, ?try_raise,
      ?try_after, ?after_after, ?after_ok, ?after_raise;
    cbv beta)).

(** ** The passes over the rows *)

Lemma mask_rows_map (f : list Cell → bool) rs :
  mask_rows (List.map f rs) rs = List.filter f rs.
Proof.
  induction rs as [|r rs IH]; auto.
  simpl. rewrite IH. reflexivity.
Qed.

Lemma filter_ext_all {A} (f : A → bool) (l : list A) :
  (∀ x, f x = true) → List.filter f l = l.
Proof.
  intros Hf. induction l as [|x l IH]; auto.
  simpl. rewrite Hf, IH. reflexivity.
Qed.

Lemma filter_filter {A} (f g : A → bool) (l : list A) :
  List.filter g (List.filter f l) = List.filter (fun x => f x && g x) l.
Proof.
  induction l as [|x l IH]; auto.
  simpl. destruct (f x); simpl; [destruct (g x)|]; rewrite IH; reflexivity.
Qed.

Lemma filter_map_comm {A B} (g : A → B) (f : B → bool) (l : list A) :
  List.filter f (List.map g l) = List.map g (List.filter (fun x => f (g x)) l).
Proof.
  induction l as [|x l IH]; auto.
  simpl. destruct (f (g x)); simpl; rewrite IH; reflexivity.
Qed.

Lemma cell_ne_spec (s : str) (c : Cell) :
  cell_ne s c = negb (bool_decide (c = VStr s)).
Proof.
  destruct c as [x| |z]; [|reflexivity..].
  unfold cell_ne, str_eqb. f_equal. apply bool_decide_ext.
  split; congruence.
Qed.

Lemma cell_in_lower u X (c : Cell) :
  cell_in X (cell_lower u c) =
  match c with
  | VStr s => bool_decide (lower u s ∈ X)
  | _ => false
  end.
Proof. now destruct c. Qed.

Lemma has_column_index df c :
  has_column df c = true →
  col_index c (columns df) = Some (column_position df c).
Proof.
  unfold has_column, column_position.
  destruct (col_index c (columns df)); [reflexivity|discriminate].
Qed.

(** Phase 1 keeps the rows that are logged in, in order. *)
Lemma phase1_rows df :
  has_column df LOGIN_COLUMN = true →
  ∃ status, getitem df LOGIN_COLUMN = Ok status ∧
    rows (select df (ne status NEVER_LOGGED_IN)) =
    List.filter (logged_in df) (rows df).
Proof.
  intros H. unfold getitem. rewrite (has_column_index _ _ H).
  eexists. split; [reflexivity|].
  unfold select, ne. simpl. rewrite map_map, mask_rows_map.
  apply filter_ext. intros r. apply cell_ne_spec.
Qed.

Lemma excluded_empty u df r : excluded u ∅ df r = false.
Proof.
  unfold excluded.
  destruct (email_of df r); auto; apply bool_decide_false; set_solver.
Qed.

(** The validation loop keeps the accepted cells in order and counts the
    others. *)
Lemma validate_all_eq emails : ∀ valid_emails invalid_count, ∃ t,
  validate_all emails valid_emails invalid_count =
    (Ok (valid_emails ++ List.filter validate_email emails,
         (invalid_count +
          length (List.filter (fun e => negb (validate_email e)) emails))%nat),
     t) ∧ silent t.
Proof.
  induction emails as [|e emails IH]; intros acc n; simpl.
  - exists []. rewrite app_nil_r, Nat.add_0_r. auto with trace.
  - destruct (validate_email e); simpl.
    + destruct (IH (acc ++ [e]) n) as (t & -> & Ht).
      exists t. rewrite <- app_assoc. auto.
    + destruct (IH acc (S n)) as (t & E & Ht).
      unfold bind, safe_print, emit. rewrite E.
      eexists. split; [|apply silent_print, Ht].
      simpl. do 2 f_equal. f_equal. lia.
Qed.

Lemma load_exclusion_emails_eq rt fs p : ∃ t,
  load_exclusion_emails rt fs p =
    (Ok match read_lines fs p with
        | Ok lines => exclusion_of_lines (unicode rt) lines
        | Raise _ => ∅
        end, t) ∧ silent t.
Proof.
  unfold load_exclusion_emails. destruct (read_lines fs p); simpl;
    eexists; (split; [reflexivity|]); reflexivity.
Qed.

(** Phase 2 drops the excluded rows, in order, or stops on the accessor. *)
Lemma exclude_eq rt fs df txt_path :
  has_column df EMAIL_COLUMN = true →
  ∃ t,
    exclude rt fs df txt_path =
      (if bool_decide (exclusion_set rt fs txt_path = ∅) ||
          str_accessor_ok rt (List.map (email_of df) (rows df))
       then Ok {| columns := columns df;
                  rows := List.filter
                            (fun r => negb (excluded (unicode rt)
                                              (exclusion_set rt fs txt_path)
                                              df r))
                            (rows df) |}
       else Raise AttributeError, t) ∧ silent t.
Proof.
  intros Hcol. unfold exclude, exclusion_set.
  assert (Hid : ∀ X, X = ∅ → df =
    {| columns := columns df;
       rows := List.filter (fun r => negb (excluded (unicode rt) X df r))
                 (rows df) |}).
  { intros X ->. rewrite filter_ext_all.
    - now destruct df.
    - intros r. now rewrite excluded_empty. }
  destruct (chosen txt_path) as [p|].
  - destruct (load_exclusion_emails_eq rt fs p) as (t & E & Ht).
    rewrite E.
    set (X := match read_lines fs p with
              | Ok lines => exclusion_of_lines (unicode rt) lines
              | Raise _ => ∅
              end).
    mstep.
    destruct (bool_decide (X = ∅)) eqn:HX.
    + apply bool_decide_eq_true in HX. mstep. cbn [orb].
      eexists. split;
        [apply f_equal2; [f_equal; now apply Hid|reflexivity]
        |auto 10 with trace].
    + unfold getitem. rewrite (has_column_index _ _ Hcol). mstep.
      unfold str_lower.
      change (List.map (field (column_position df EMAIL_COLUMN)) (rows df))
        with (List.map (email_of df) (rows df)).
      destruct (str_accessor_ok rt (List.map (email_of df) (rows df))).
      * mstep. eexists. split.
        -- f_equal. f_equal. unfold select. f_equal. unfold isin.
           rewrite !map_map, mask_rows_map.
           apply filter_ext. intros r. now rewrite cell_in_lower.
        -- auto 10 with trace.
      * mstep. eexists. split; [reflexivity|auto 10 with trace].
  - exists []. rewrite bool_decide_true by reflexivity. simpl.
    split; auto with trace. unfold ret. f_equal. f_equal. now apply Hid.
Qed.

Lemma survivors_eq u X df (phase1 : list (list Cell)) :
  phase1 = List.filter (logged_in df) (rows df) →
  List.filter validate_email
    (List.map (email_of df)
       (List.filter (fun r => negb (excluded u X df r)) phase1)) =
  List.map (email_of df) (List.filter (survives u X df) (rows df)).
Proof.
  intros ->. rewrite filter_map_comm, !filter_filter. f_equal.
  apply filter_ext. intros r. unfold survives. now rewrite andb_assoc.
Qed.

Ltac trace_facts :=
  repeat (progress (
    cbn [files_written existsb is_notice is_error_notice app orb];
    rewrite ?files_written_app, ?existsb_app;
    repeat match goal with
    | H : silent ?t |- _ =>
        progress (rewrite ?(silent_files t H), ?(silent_no_notice t H),
                    ?(silent_no_error t H))
    end)).

Ltac find_event :=
  lazymatch goal with
  | |- In _ (_ :: _) => first [left; reflexivity | apply in_cons; find_event]
  | |- In _ (_ ++ _) =>
      first [ apply in_or_app; right; find_event
            | apply in_or_app; left; find_event ]
  | |- In _ _ => solve [auto]
  end.

Ltac finish :=
  eexists; split;
  [reflexivity
  |repeat split; trace_facts;
   first [ reflexivity | intros; discriminate | intros; reflexivity
         | intros; find_event ]].

(** What [process_csv] returns and shows. *)
Lemma process_csv_eq rt fs csv_path txt_path : ∃ t,
  process_csv rt fs csv_path txt_path =
    (Ok (option_map
           (fun es => (es, extract_domain (unicode rt) (hd VNaN es), csv_path))
           (emails_to_write rt fs csv_path txt_path)), t) ∧
  files_written t = [] ∧
  existsb is_notice t =
    match emails_to_write rt fs csv_path txt_path with
    | Some _ => false
    | None => true
    end ∧
  match read_csv fs csv_path with
  | Raise _ => existsb is_error_notice t = true
  | Ok _ => True
  end ∧
  match emails_to_write rt fs csv_path txt_path with
  | Some es =>
      (1 <? size (domains_of rt es))%nat = true →
      In (Print [Txt "Warning: Multiple domains detected: ";
                 Strs (elements (domains_of rt es))]) t
  | None => True
  end.
Proof.
  unfold process_csv, emails_to_write. mstep.
  destruct (read_csv fs csv_path) as [df|e]; mstep; [|finish].
  unfold validate_csv_format. cbn [List.filter].
  destruct (has_column df EMAIL_COLUMN) eqn:He,
    (has_column df LOGIN_COLUMN) eqn:Hl; cbn [negb andb]; mstep;
    try finish.
  destruct (phase1_rows df Hl) as (status & -> & Hrows). mstep.
  replace (len (select df (ne status NEVER_LOGGED_IN)))
    with (length (List.filter (logged_in df) (rows df)))
    by (unfold len; now rewrite Hrows).
  destruct (List.filter (logged_in df) (rows df)) as [|r1 rs1] eqn:Hp1;
    cbn [length Nat.eqb]; mstep; [finish|].
  destruct (exclude_eq rt fs (select df (ne status NEVER_LOGGED_IN)) txt_path He)
    as (t2 & -> & Ht2).
  change (email_of (select df (ne status NEVER_LOGGED_IN))) with (email_of df).
  rewrite Hrows.
  destruct (bool_decide (exclusion_set rt fs txt_path = ∅) ||
            str_accessor_ok rt (List.map (email_of df) (r1 :: rs1)));
    mstep; [|finish].
  unfold getitem. cbn [columns rows].
  change (columns (select df (ne status NEVER_LOGGED_IN))) with (columns df).
  rewrite (has_column_index _ _ He). mstep.
  match goal with |- context [validate_all ?es [] 0] =>
    destruct (validate_all_eq es [] O) as (t3 & -> & Ht3) end.
  mstep. cbn [app].
  change (field (column_position df EMAIL_COLUMN)) with (email_of df).
  change (excluded (unicode rt) (exclusion_set rt fs txt_path)
            (select df (ne status NEVER_LOGGED_IN)))
    with (excluded (unicode rt) (exclusion_set rt fs txt_path) df).
  rewrite (survivors_eq _ _ df (r1 :: rs1)) by auto.
  set (n := (0 + _)%nat).
  destruct (List.map (email_of df)
              (List.filter (survives (unicode rt)
                              (exclusion_set rt fs txt_path) df) (rows df)))
    as [|first rest].
  - destruct (0 <? n)%nat; mstep; finish.
  - destruct (0 <? n)%nat, (1 <? size (domains_of rt (first :: rest)))%nat;
      mstep; finish.
Qed.

(** What [save_output] writes and shows. *)
Lemma save_output_eq fs emails domain csv_path :
  let p := {| parent_of := csv_path; name := domain ++ lit "-to-delete.csv" |} in
  ∃ t,
    save_output fs emails domain csv_path =
      (Ok (if writable fs p then Some p else None), t) ∧
    files_written t =
      (if writable fs p then [(p, output_file emails)] else []) ∧
    existsb is_notice t = negb (writable fs p) ∧
    existsb is_error_notice t = negb (writable fs p).
Proof.
  intros p. unfold save_output, to_csv. fold p.
  destruct (writable fs p); mstep; finish.
Qed.

(** The files a run of the script creates and whether it ends on a notice:
    one file when [emails_to_write] gives the emails and the place can be
    written, none otherwise. *)
Lemma main_eq rt fs csv_path txt_path : ∃ t,
  main rt fs csv_path txt_path = (Ok tt, t) ∧
  files_written t =
    match csv_path, emails_to_write rt fs csv_path txt_path with
    | _ :: _, Some es =>
        let p := output_path (unicode rt) csv_path es in
        if writable fs p then [(p, output_file es)] else []
    | _, _ => []
    end ∧
  existsb is_notice t =
    match csv_path, emails_to_write rt fs csv_path txt_path with
    | [], _ => false
    | _, None => true
    | _, Some es => negb (writable fs (output_path (unicode rt) csv_path es))
    end ∧
  match csv_path, read_csv fs csv_path with
  | _ :: _, Raise _ => existsb is_error_notice t = true
  | _, _ => True
  end ∧
  match csv_path, emails_to_write rt fs csv_path txt_path with
  | _ :: _, Some es =>
      (writable fs (output_path (unicode rt) csv_path es) = false →
       existsb is_error_notice t = true) ∧
      ((1 <? size (domains_of rt es))%nat = true →
       In (Print [Txt "Warning: Multiple domains detected: ";
                  Strs (elements (domains_of rt es))]) t)
  | _, _ => True
  end.
Proof.
  unfold main. mstep.
  destruct csv_path as [|c csv']; mstep; [finish|].
  set (csv_path := c :: csv').
  destruct (process_csv_eq rt fs csv_path txt_path)
    as (tp & -> & Hf & Hn & Hr & Hw).
  assert (Hsel : ∃ t0, (match chosen txt_path with
           | Some p => (Ok tt, [Print [Txt "TXT file selected: "; Str p]])
           | None => (Ok tt,
               [Print [Txt "No TXT file selected (skipping exclusions)"]])
           end : M unit) = (Ok tt, t0) ∧ silent t0).
  { destruct (chosen txt_path); eexists; split; reflexivity. }
  destruct Hsel as (t0 & -> & Ht0). mstep.
  destruct (emails_to_write rt fs csv_path txt_path) as [es|];
    cbn [option_map]; mstep.
  - destruct (save_output_eq fs es (extract_domain (unicode rt) (hd VNaN es))
                csv_path) as (ts & -> & Hsf & Hsn & Hse).
    fold (output_path (unicode rt) csv_path es) in *.
    destruct (writable fs (output_path (unicode rt) csv_path es)); mstep;
      eexists; (split; [reflexivity|]);
      trace_facts; rewrite ?Hf, ?Hn, ?Hsf, ?Hsn, ?Hse;
      cbn [is_error_notice negb orb app];
      (split; [reflexivity|split; [reflexivity|split; [|split]]]);
      try (destruct (read_csv fs csv_path); [exact I|]);
      try rewrite Hr; rewrite ?orb_true_r; try reflexivity;
      intros; try discriminate; rewrite ?orb_true_r; try reflexivity;
      find_event.
  - eexists. split; [reflexivity|].
    trace_facts. rewrite ?Hf, ?Hn. cbn [is_error_notice negb orb app].
    split; [reflexivity|split; [reflexivity|split; [|exact I]]].
    destruct (read_csv fs csv_path); [exact I|].
    rewrite Hr, ?orb_true_r. reflexivity.
Qed.

(** ** The window runs the same pipeline *)

Lemma gui_validate_all_eq emails : ∀ valid_emails invalid_count, ∃ t,
  Gui.validate_all emails valid_emails invalid_count =
    (Ok (valid_emails ++ List.filter validate_email emails,
         (invalid_count +
          length (List.filter (fun e => negb (validate_email e)) emails))%nat),
     t) ∧ silent t.
Proof.
  induction emails as [|e emails IH]; intros acc n; simpl.
  - exists []. rewrite app_nil_r, Nat.add_0_r. auto with trace.
  - destruct (validate_email e); simpl.
    + destruct (IH (acc ++ [e]) n) as (t & -> & Ht).
      exists t. rewrite <- app_assoc. auto.
    + destruct (IH acc (S n)) as (t & E & Ht).
      mstep. rewrite E. cbn [value trace fst snd].
      eexists. split; [|apply silent_log, Ht].
      simpl. do 2 f_equal. f_equal. lia.
Qed.

Lemma gui_load_exclusion_emails_eq rt fs p : ∃ t,
  Gui.load_exclusion_emails rt fs p =
    (Ok match read_lines fs p with
        | Ok lines => exclusion_of_lines (unicode rt) lines
        | Raise _ => ∅
        end, t) ∧ silent t.
Proof.
  unfold Gui.load_exclusion_emails. destruct (read_lines fs p); simpl;
    eexists; (split; [reflexivity|]); reflexivity.
Qed.

Lemma gui_exclude_eq rt fs df txt_path :
  has_column df EMAIL_COLUMN = true →
  ∃ t,
    Gui.exclude rt fs df txt_path =
      (if bool_decide (exclusion_set rt fs txt_path = ∅) ||
          str_accessor_ok rt (List.map (email_of df) (rows df))
       then Ok {| columns := columns df;
                  rows := List.filter
                            (fun r => negb (excluded (unicode rt)
                                              (exclusion_set rt fs txt_path)
                                              df r))
                            (rows df) |}
       else Raise AttributeError, t) ∧ silent t.
Proof.
  intros Hcol. unfold Gui.exclude, exclusion_set.
  assert (Hid : ∀ X, X = ∅ → df =
    {| columns := columns df;
       rows := List.filter (fun r => negb (excluded (unicode rt) X df r))
                 (rows df) |}).
  { intros X ->. rewrite filter_ext_all.
    - now destruct df.
    - intros r. now rewrite excluded_empty. }
  destruct (chosen txt_path) as [p|].
  - destruct (gui_load_exclusion_emails_eq rt fs p) as (t & E & Ht).
    rewrite E.
    set (X := match read_lines fs p with
              | Ok lines => exclusion_of_lines (unicode rt) lines
              | Raise _ => ∅
              end).
    mstep.
    destruct (bool_decide (X = ∅)) eqn:HX.
    + apply bool_decide_eq_true in HX. mstep. cbn [orb].
      eexists. split;
        [apply f_equal2; [f_equal; now apply Hid|reflexivity]
        |auto 10 with trace].
    + unfold getitem. rewrite (has_column_index _ _ Hcol). mstep.
      unfold str_lower.
      change (List.map (field (column_position df EMAIL_COLUMN)) (rows df))
        with (List.map (email_of df) (rows df)).
      destruct (str_accessor_ok rt (List.map (email_of df) (rows df))).
      * mstep. eexists. split.
        -- f_equal. f_equal. unfold select. f_equal. unfold isin.
           rewrite !map_map, mask_rows_map.
           apply filter_ext. intros r. now rewrite cell_in_lower.
        -- auto 10 with trace.
      * mstep. eexists. split; [reflexivity|auto 10 with trace].
  - exists []. rewrite bool_decide_true by reflexivity. simpl.
    split; auto with trace. unfold ret. f_equal. f_equal. now apply Hid.
Qed.

(** The window creates the file the script creates, and ends on a notice
    when the script does. *)
Lemma gui_process_files_eq rt fs csv_path txt_path : ∃ t,
  Gui.process_files rt fs csv_path txt_path = (Ok tt, t) ∧
  files_written t =
    match emails_to_write rt fs csv_path txt_path with
    | Some es =>
        let p := output_path (unicode rt) csv_path es in
        if writable fs p then [(p, output_file es)] else []
    | None => []
    end ∧
  existsb is_notice t =
    match emails_to_write rt fs csv_path txt_path with
    | None => true
    | Some es => negb (writable fs (output_path (unicode rt) csv_path es))
    end ∧
  match emails_to_write rt fs csv_path txt_path with
  | Some es =>
      (1 <? size (domains_of rt es))%nat = true →
      In (Log [Txt "Warning: Multiple domains detected: ";
               Strs (elements (domains_of rt es))]) t
  | None => True
  end ∧
  match read_csv fs csv_path with
  | Raise _ => existsb is_error_notice t = true
  | Ok _ => True
  end ∧
  match emails_to_write rt fs csv_path txt_path with
  | Some es =>
      writable fs (output_path (unicode rt) csv_path es) = false →
      existsb is_error_notice t = true
  | None => True
  end.
Proof.
  unfold Gui.process_files, emails_to_write.
  assert (Hsel : ∃ t0, (match chosen txt_path with
           | Some p => Gui.log [Txt "TXT file: "; Base p]
           | None => Gui.log [Txt "No TXT file selected (no exclusions)"]
           end) = (Ok tt, t0) ∧ silent t0).
  { destruct (chosen txt_path); eexists; split; reflexivity. }
  destruct Hsel as (t0 & -> & Ht0). mstep.
  destruct (read_csv fs csv_path) as [df|e]; mstep; [|finish].
  cbn [List.filter].
  destruct (has_column df EMAIL_COLUMN) eqn:He,
    (has_column df LOGIN_COLUMN) eqn:Hl; cbn [negb andb]; mstep;
    try finish.
  destruct (phase1_rows df Hl) as (status & -> & Hrows). mstep.
  replace (len (select df (ne status NEVER_LOGGED_IN)))
    with (length (List.filter (logged_in df) (rows df)))
    by (unfold len; now rewrite Hrows).
  destruct (List.filter (logged_in df) (rows df)) as [|r1 rs1] eqn:Hp1;
    cbn [length Nat.eqb]; mstep; [finish|].
  destruct (gui_exclude_eq rt fs (select df (ne status NEVER_LOGGED_IN))
              txt_path He) as (t2 & -> & Ht2).
  change (email_of (select df (ne status NEVER_LOGGED_IN))) with (email_of df).
  rewrite Hrows.
  destruct (bool_decide (exclusion_set rt fs txt_path = ∅) ||
            str_accessor_ok rt (List.map (email_of df) (r1 :: rs1)));
    mstep; [|finish].
  unfold getitem. cbn [columns rows].
  change (columns (select df (ne status NEVER_LOGGED_IN))) with (columns df).
  rewrite (has_column_index _ _ He). mstep.
  match goal with |- context [Gui.validate_all ?es [] 0] =>
    destruct (gui_validate_all_eq es [] O) as (t3 & -> & Ht3) end.
  mstep. cbn [app].
  change (field (column_position df EMAIL_COLUMN)) with (email_of df).
  change (excluded (unicode rt) (exclusion_set rt fs txt_path)
            (select df (ne status NEVER_LOGGED_IN)))
    with (excluded (unicode rt) (exclusion_set rt fs txt_path) df).
  rewrite (survivors_eq _ _ df (r1 :: rs1)) by auto.
  set (n := (0 + _)%nat).
  destruct (List.map (email_of df)
              (List.filter (survives (unicode rt)
                              (exclusion_set rt fs txt_path) df) (rows df)))
    as [|first rest].
  - destruct (0 <? n)%nat; mstep; finish.
  - unfold to_csv, output_path. cbn [hd].
    set (p := {| parent_of := csv_path;
                 name := extract_domain (unicode rt) first ++
                         lit "-to-delete.csv" |}).
    fold (domains_of rt (first :: rest)).
    destruct (0 <? n)%nat, (1 <? size (domains_of rt (first :: rest)))%nat,
      (writable fs p); mstep; finish.
Qed.

(** ** The emails a run writes *)

Lemma emails_to_write_some rt fs csv_path txt_path es :
  emails_to_write rt fs csv_path txt_path = Some es →
  ∃ df, read_csv fs csv_path = Ok df ∧
    has_column df EMAIL_COLUMN = true ∧ has_column df LOGIN_COLUMN = true ∧
    es = List.map (email_of df)
           (List.filter (survives (unicode rt)
                           (exclusion_set rt fs txt_path) df) (rows df)) ∧
    es ≠ [].
Proof.
  unfold emails_to_write.
  destruct (read_csv fs csv_path) as [df|]; [|discriminate].
  destruct (has_column df EMAIL_COLUMN) eqn:He,
    (has_column df LOGIN_COLUMN) eqn:Hl; try discriminate. cbn [andb].
  destruct (List.filter (logged_in df) (rows df)); [discriminate|].
  destruct (_ || _); [|discriminate].
  destruct (List.map _ _) eqn:E; [discriminate|].
  intros [= <-]. exists df. repeat split; auto; discriminate.
Qed.

Lemma emails_to_write_none rt fs csv_path txt_path df :
  read_csv fs csv_path = Ok df →
  has_column df EMAIL_COLUMN && has_column df LOGIN_COLUMN = false ∨
  List.filter (logged_in df) (rows df) = [] ∨
  List.filter (survives (unicode rt) (exclusion_set rt fs txt_path) df)
    (rows df) = [] →
  emails_to_write rt fs csv_path txt_path = None.
Proof.
  intros Hread H. unfold emails_to_write. rewrite Hread.
  destruct (has_column df EMAIL_COLUMN && has_column df LOGIN_COLUMN);
    [|reflexivity].
  destruct (List.filter (logged_in df) (rows df)); [reflexivity|].
  destruct (_ || _); [|reflexivity].
  destruct H as [H | [H | H]]; try discriminate.
  now rewrite H.
Qed.

(** The files of a run, for both front ends. *)
Lemma run_files rt fs csv_path txt_path p f :
  In (p, f) (files_written (trace (main rt fs csv_path txt_path))) ∨
  In (p, f) (files_written (trace (Gui.process_files rt fs csv_path txt_path))) →
  ∃ es, emails_to_write rt fs csv_path txt_path = Some es ∧
    p = output_path (unicode rt) csv_path es ∧ f = output_file es ∧
    writable fs p = true.
Proof.
  destruct (main_eq rt fs csv_path txt_path) as (t & -> & Hf & _).
  destruct (gui_process_files_eq rt fs csv_path txt_path)
    as (t' & -> & Hf' & _).
  cbn [trace snd]. rewrite Hf, Hf'. clear Hf Hf'.
  assert (Hone : ∀ es,
    In (p, f)
      (if writable fs (output_path (unicode rt) csv_path es)
       then [(output_path (unicode rt) csv_path es, output_file es)]
       else []) →
    p = output_path (unicode rt) csv_path es ∧ f = output_file es ∧
    writable fs p = true).
  { intros es.
    destruct (writable fs (output_path (unicode rt) csv_path es)) eqn:Hw;
      [|contradiction].
    intros [[= <- <-]|[]]. auto. }
  destruct csv_path as [|c csv'];
    destruct (emails_to_write rt fs _ txt_path) as [es|]; cbv zeta;
    intros [H|H]; try contradiction; exists es; split; auto.
Qed.


(** ** The message boxes of a run *)

Lemma dialogs_app t1 t2 : dialogs (t1 ++ t2) = dialogs t1 ++ dialogs t2.
Proof. apply List.filter_app. Qed.

Lemma silent_dialogs t : silent t → dialogs t = [].
Proof.
  unfold silent, dialogs. induction t as [|e t IH]; auto.
  simpl. intros [He Ht]%andb_true_iff. destruct e; try discriminate; auto.
Qed.

Ltac dialog_facts :=
  repeat (progress (
    cbn [dialogs List.filter is_dialog app];
    fold dialogs;
    rewrite ?dialogs_app;
    repeat match goal with
    | H : silent ?t |- _ => progress (rewrite ?(silent_dialogs t H))
    end)).

Ltac finish_dialogs :=
  eexists; split; [reflexivity | dialog_facts; reflexivity].

Lemma missing_columns_nil df :
  missing_columns df = [] ↔
  has_column df EMAIL_COLUMN = true ∧ has_column df LOGIN_COLUMN = true.
Proof.
  unfold missing_columns. cbn [List.filter].
  destruct (has_column df EMAIL_COLUMN), (has_column df LOGIN_COLUMN);
    cbn [negb]; split; try discriminate; intuition discriminate.
Qed.

(** The boxes [process_csv] shows: none when it hands emails to the writer,
    otherwise the one that tells why it does not. *)
Lemma process_csv_dialogs rt fs csv_path txt_path : ∃ t,
  process_csv rt fs csv_path txt_path =
    (Ok (option_map
           (fun es => (es, extract_domain (unicode rt) (hd VNaN es), csv_path))
           (emails_to_write rt fs csv_path txt_path)), t) ∧
  dialogs t =
    match emails_to_write rt fs csv_path txt_path with
    | Some _ => []
    | None => [script_box rt fs csv_path txt_path]
    end.
Proof.
  unfold process_csv, script_box, emails_to_write, missing_columns. mstep.
  destruct (read_csv fs csv_path) as [df|e]; mstep; [|finish_dialogs].
  unfold validate_csv_format. cbn [List.filter].
  destruct (has_column df EMAIL_COLUMN) eqn:He,
    (has_column df LOGIN_COLUMN) eqn:Hl; cbn [negb andb]; mstep;
    try finish_dialogs.
  destruct (phase1_rows df Hl) as (status & -> & Hrows). mstep.
  replace (len (select df (ne status NEVER_LOGGED_IN)))
    with (length (List.filter (logged_in df) (rows df)))
    by (unfold len; now rewrite Hrows).
  destruct (List.filter (logged_in df) (rows df)) as [|r1 rs1] eqn:Hp1;
    cbn [length Nat.eqb]; mstep; [finish_dialogs|].
  destruct (exclude_eq rt fs (select df (ne status NEVER_LOGGED_IN)) txt_path He)
    as (t2 & -> & Ht2).
  change (email_of (select df (ne status NEVER_LOGGED_IN))) with (email_of df).
  rewrite Hrows.
  destruct (bool_decide (exclusion_set rt fs txt_path = ∅) ||
            str_accessor_ok rt (List.map (email_of df) (r1 :: rs1)));
    mstep; [|finish_dialogs].
  unfold getitem. cbn [columns rows].
  change (columns (select df (ne status NEVER_LOGGED_IN))) with (columns df).
  rewrite (has_column_index _ _ He). mstep.
  match goal with |- context [validate_all ?es [] 0] =>
    destruct (validate_all_eq es [] O) as (t3 & -> & Ht3) end.
  mstep. cbn [app].
  change (field (column_position df EMAIL_COLUMN)) with (email_of df).
  change (excluded (unicode rt) (exclusion_set rt fs txt_path)
            (select df (ne status NEVER_LOGGED_IN)))
    with (excluded (unicode rt) (exclusion_set rt fs txt_path) df).
  rewrite (survivors_eq _ _ df (r1 :: rs1)) by auto.
  set (n := (0 + _)%nat).
  destruct (List.map (email_of df)
              (List.filter (survives (unicode rt)
                              (exclusion_set rt fs txt_path) df) (rows df)))
    as [|first rest].
  - destruct (0 <? n)%nat; mstep; finish_dialogs.
  - destruct (0 <? n)%nat, (1 <? size (domains_of rt (first :: rest)))%nat;
      mstep; finish_dialogs.
Qed.

Lemma save_output_dialogs fs emails domain csv_path :
  let p := {| parent_of := csv_path; name := domain ++ lit "-to-delete.csv" |} in
  ∃ t,
    save_output fs emails domain csv_path =
      (Ok (if writable fs p then Some p else None), t) ∧
    dialogs t =
      [if writable fs p
       then ShowInfo "Success"
              [Txt "Processing complete!"; Txt "Output file: ";
               Str (domain ++ lit "-to-delete.csv"); Txt "Location: ";
               Dir csv_path; Txt "Total emails: "; Int (length emails)]
       else ShowError "Error" [Txt "Error saving output: "; Exc OSError]].
Proof.
  intros p. unfold save_output, to_csv. fold p.
  destruct (writable fs p); mstep; finish_dialogs.
Qed.

(** The boxes of a whole run of [main]. *)
Lemma main_dialogs rt fs csv_path txt_path :
  dialogs (trace (main rt fs csv_path txt_path)) =
    match csv_path with
    | [] => []
    | _ :: _ => [script_box rt fs csv_path txt_path]
    end.
Proof.
  unfold main. mstep.
  destruct csv_path as [|c csv']; mstep; [reflexivity|].
  destruct (process_csv_dialogs rt fs (c :: csv') txt_path)
    as (tp & -> & Hd).
  assert (Hsel : ∃ t0, (match chosen txt_path with
           | Some p => (Ok tt, [Print [Txt "TXT file selected: "; Str p]])
           | None => (Ok tt,
               [Print [Txt "No TXT file selected (skipping exclusions)"]])
           end : M unit) = (Ok tt, t0) ∧ silent t0).
  { destruct (chosen txt_path); eexists; split; reflexivity. }
  destruct Hsel as (t0 & -> & Ht0). mstep.
  destruct (emails_to_write rt fs (c :: csv') txt_path) as [es|] eqn:Hes;
    cbn [option_map]; mstep.
  - destruct (save_output_dialogs fs es
                (extract_domain (unicode rt) (hd VNaN es)) (c :: csv'))
      as (ts & -> & Hs).
    fold (output_path (unicode rt) (c :: csv') es) in *.
    apply emails_to_write_some in Hes as Hsome.
    destruct Hsome as (df & Hread & He & Hl & Hmap & Hne).
    assert (Hbox : script_box rt fs (c :: csv') txt_path =
      if writable fs (output_path (unicode rt) (c :: csv') es)
      then ShowInfo "Success" (success_text (unicode rt) (c :: csv') es)
      else ShowError "Error" [Txt "Error saving output: "; Exc OSError]).
    { unfold script_box. rewrite Hread.
      rewrite (proj2 (missing_columns_nil df) (conj He Hl)).
      revert Hes. unfold emails_to_write. rewrite Hread, He, Hl. cbn [andb].
      destruct (List.filter (logged_in df) (rows df)); [discriminate|].
      destruct (_ || _); [|discriminate].
      destruct (List.map _ _); [discriminate|].
      intros [= <-]. reflexivity. }
    rewrite Hbox.
    destruct (writable fs (output_path (unicode rt) (c :: csv') es)); mstep;
      cbn [trace snd]; dialog_facts; rewrite Hd, Hs; reflexivity.
  - cbn [trace snd]. dialog_facts. rewrite Hd. reflexivity.
Qed.

(** The boxes of a whole run of the window's [process_files]. *)
Lemma process_files_dialogs rt fs csv_path txt_path :
  dialogs (trace (Gui.process_files rt fs csv_path txt_path)) =
    [window_box rt fs csv_path txt_path].
Proof.
  unfold Gui.process_files, window_box, emails_to_write, missing_columns.
  assert (Hsel : ∃ t0, (match chosen txt_path with
           | Some p => Gui.log [Txt "TXT file: "; Base p]
           | None => Gui.log [Txt "No TXT file selected (no exclusions)"]
           end) = (Ok tt, t0) ∧ silent t0).
  { destruct (chosen txt_path); eexists; split; reflexivity. }
  destruct Hsel as (t0 & -> & Ht0). mstep.
  destruct (read_csv fs csv_path) as [df|e]; mstep;
    [|cbn [trace snd]; dialog_facts; reflexivity].
  cbn [List.filter].
  destruct (has_column df EMAIL_COLUMN) eqn:He,
    (has_column df LOGIN_COLUMN) eqn:Hl; cbn [negb andb]; mstep;
    try (cbn [trace snd]; dialog_facts; reflexivity).
  destruct (phase1_rows df Hl) as (status & -> & Hrows). mstep.
  replace (len (select df (ne status NEVER_LOGGED_IN)))
    with (length (List.filter (logged_in df) (rows df)))
    by (unfold len; now rewrite Hrows).
  destruct (List.filter (logged_in df) (rows df)) as [|r1 rs1] eqn:Hp1;
    cbn [length Nat.eqb]; mstep;
    [cbn [trace snd]; dialog_facts; reflexivity|].
  destruct (gui_exclude_eq rt fs (select df (ne status NEVER_LOGGED_IN))
              txt_path He) as (t2 & -> & Ht2).
  change (email_of (select df (ne status NEVER_LOGGED_IN))) with (email_of df).
  rewrite Hrows.
  destruct (bool_decide (exclusion_set rt fs txt_path = ∅) ||
            str_accessor_ok rt (List.map (email_of df) (r1 :: rs1)));
    mstep; [|cbn [trace snd]; dialog_facts; reflexivity].
  unfold getitem. cbn [columns rows].
  change (columns (select df (ne status NEVER_LOGGED_IN))) with (columns df).
  rewrite (has_column_index _ _ He). mstep.
  match goal with |- context [Gui.validate_all ?es [] 0] =>
    destruct (gui_validate_all_eq es [] O) as (t3 & -> & Ht3) end.
  mstep. cbn [app].
  change (field (column_position df EMAIL_COLUMN)) with (email_of df).
  change (excluded (unicode rt) (exclusion_set rt fs txt_path)
            (select df (ne status NEVER_LOGGED_IN)))
    with (excluded (unicode rt) (exclusion_set rt fs txt_path) df).
  rewrite (survivors_eq _ _ df (r1 :: rs1)) by auto.
  set (n := (0 + _)%nat).
  destruct (List.map (email_of df)
              (List.filter (survives (unicode rt)
                              (exclusion_set rt fs txt_path) df) (rows df)))
    as [|first rest].
  - destruct (0 <? n)%nat; mstep; cbn [trace snd]; dialog_facts; reflexivity.
  - unfold to_csv, output_path, success_text. cbn [hd].
    set (p := {| parent_of := csv_path;
                 name := extract_domain (unicode rt) first ++
                         lit "-to-delete.csv" |}).
    fold (domains_of rt (first :: rest)).
    destruct (0 <? n)%nat, (1 <? size (domains_of rt (first :: rest)))%nat,
      (writable fs p); mstep; cbn [trace snd]; dialog_facts; reflexivity.
Qed.

Lemma script_box_some rt fs csv_path txt_path es :
  emails_to_write rt fs csv_path txt_path = Some es →
  script_box rt fs csv_path txt_path =
    if writable fs (output_path (unicode rt) csv_path es)
    then ShowInfo "Success" (success_text (unicode rt) csv_path es)
    else ShowError "Error" [Txt "Error saving output: "; Exc OSError].
Proof.
  intros Hes. unfold script_box. rewrite Hes.
  apply emails_to_write_some in Hes as Hsome.
  destruct Hsome as (df & Hread & He & Hl & _).
  rewrite Hread, (proj2 (missing_columns_nil df) (conj He Hl)).
  revert Hes. unfold emails_to_write. rewrite Hread, He, Hl. cbn [andb].
  destruct (List.filter (logged_in df) (rows df)); [discriminate|].
  destruct (_ || _); [reflexivity|discriminate].
Qed.

Lemma script_box_none rt fs csv_path txt_path :
  emails_to_write rt fs csv_path txt_path = None →
  is_info (script_box rt fs csv_path txt_path) = false.
Proof.
  intros Hnone. unfold script_box. rewrite Hnone.
  destruct (read_csv fs csv_path) as [df|]; [|reflexivity].
  destruct (missing_columns df); [|reflexivity].
  destruct (List.filter (logged_in df) (rows df)); [reflexivity|].
  destruct (_ || _); reflexivity.
Qed.

Lemma info_in_dialogs t : existsb is_info t = existsb is_info (dialogs t).
Proof.
  unfold dialogs. induction t as [|e t IH]; auto.
  destruct e; simpl; auto.
Qed.

(** ** The first email of a line *)

(** A successful repetition took the longest run after which the
    continuation succeeds. *)
Lemma rep_inv_longest cls k : ∀ s lo r,
  Re.rep cls k lo s = Some r →
  ∃ w u, s = w ++ u ∧ all_of cls w ∧ (lo ≤ length w)%nat ∧ k u = Some r ∧
    ∀ w' u', s = w' ++ u' → all_of cls w' → (length w < length w')%nat →
             k u' = None.
Proof.
  induction s as [|c s IH]; intros lo r H; simpl in H.
  - destruct lo; [|discriminate].
    exists [], []. repeat split; auto.
    intros w' u' Hs _ Hlen. destruct w'; [simpl in Hlen; lia|discriminate].
  - destruct (cls c) eqn:Hc.
    + destruct (Re.rep cls k (Nat.pred lo) s) as [r'|] eqn:Hrec.
      * injection H as ->.
        destruct (IH _ _ Hrec) as (w & u & -> & Hw & Hlo & Hk & Hmax).
        exists (c :: w), u. repeat split; auto.
        -- apply all_of_cons; auto.
        -- simpl. lia.
        -- intros w' u' Hs Hw' Hlen.
           destruct w' as [|c' w']; [simpl in Hlen; lia|].
           injection Hs as _ Hs. apply all_of_cons in Hw' as [_ Hw'].
           apply (Hmax w' u'); auto. simpl in Hlen. lia.
      * destruct lo; [|discriminate].
        exists [], (c :: s). repeat split; auto.
        intros w' u' Hs Hw' Hlen.
        destruct w' as [|c' w']; [simpl in Hlen; lia|].
        injection Hs as _ Hs. apply all_of_cons in Hw' as [_ Hw'].
        destruct (k u') as [r'|] eqn:Hk; [|reflexivity].
        assert (Hsome : is_Some (Re.rep cls k (Nat.pred 0) s)).
        { apply (rep_complete cls k s _ w' u'); auto; try (simpl; lia). }
        rewrite Hrec in Hsome. destruct Hsome as [? ?]. discriminate.
    + destruct lo; [|discriminate].
      exists [], (c :: s). repeat split; auto.
      intros w' u' Hs Hw' Hlen.
      destruct w' as [|c' w']; [simpl in Hlen; lia|].
      injection Hs as -> _. apply all_of_cons in Hw' as [Hc' _]. congruence.
Qed.

Lemma app_stop_unique {A} (P : A → bool) (a a' : list A) c x y :
  forallb P a = true → forallb P a' = true → P c = false →
  a ++ c :: x = a' ++ c :: y → a = a' ∧ x = y.
Proof.
  intros Ha Ha' Hc. revert a' Ha'.
  induction a as [|e a IH]; intros [|e' a'] Ha' H; simpl in *.
  - injection H as ->. auto.
  - injection H as <- _. apply andb_true_iff in Ha' as [He _]. congruence.
  - injection H as -> _. apply andb_true_iff in Ha as [He _]. congruence.
  - injection H as -> H. apply andb_true_iff in Ha as [_ Ha].
    apply andb_true_iff in Ha' as [_ Ha'].
    destruct (IH Ha a' Ha' H) as [-> ->]. auto.
Qed.

(** A run of letters does not reach beyond a dot. *)
Lemma alpha_run_before_dot (t u z v : str) :
  all_of is_alpha t → t ++ u = z ++ DOT :: v → (length t ≤ length z)%nat.
Proof.
  intros Ht H. apply List.app_eq_app in H as [k [[-> H] | [-> H]]].
  - destruct k as [|c k]; [rewrite length_app; simpl; lia|].
    injection H as <- _. apply all_of_app in Ht as [_ Ht].
    apply all_of_cons in Ht as [Hdot _]. discriminate.
  - rewrite length_app. lia.
Qed.

(** At the position where it matches, the pattern takes the longest email
    that starts there. *)
Lemma match_email_longest (s r : str) :
  Re.match_here EMAIL_BODY s = Some r →
  ∃ m, s = m ++ r ∧ full_match_email m ∧
    ∀ m' u', s = m' ++ u' → full_match_email m' →
             (length m' ≤ length m)%nat.
Proof.
  unfold EMAIL_BODY. cbn [Re.match_here]. intros H.
  apply rep_inv_longest in H as (l & u1 & -> & Hl & Hl1 & H & _).
  destruct u1 as [|x u1]; [discriminate|].
  destruct (x =? AT) eqn:Hx; [|discriminate].
  apply N.eqb_eq in Hx as ->.
  apply rep_inv_longest in H as (d & u2 & -> & Hd & Hd1 & H & Hdmax).
  destruct u2 as [|y u2]; [discriminate|].
  destruct (y =? DOT) eqn:Hy; [|discriminate].
  apply N.eqb_eq in Hy as ->.
  apply rep_inv_longest in H as (t & u & -> & Ht & Ht2 & H & Htmax).
  injection H as ->.
  exists (l ++ AT :: d ++ DOT :: t). split; [|split].
  - rewrite <- !app_assoc. simpl. rewrite <- app_assoc. reflexivity.
  - exists l, d, t. repeat split; auto.
    + intros ->. simpl in Hl1. lia.
    + intros ->. simpl in Hd1. lia.
  - intros m' u' Hs (l' & d' & t' & -> & Hl0' & Hl' & Hd0' & Hd' & Ht2' & Ht').
    rewrite <- !app_assoc in Hs. simpl in Hs. rewrite <- !app_assoc in Hs.
    simpl in Hs.
    apply (app_stop_unique (fun c => negb (c =? AT))) in Hs as [<- Hs];
      [| now apply no_at_local | now apply no_at_local | reflexivity].
    rewrite !length_app. simpl. rewrite !length_app. simpl.
    apply List.app_eq_app in Hs as [k [[-> Hs] | [-> Hs]]].
    + (* the first domain part is the longer one *)
      destruct k as [|c k].
      * rewrite app_nil_r. simpl in Hs. injection Hs as Hs.
        destruct (Nat.le_gt_cases (length t') (length t)) as [|Hlt]; [lia|].
        symmetry in Hs. specialize (Htmax t' u' Hs Ht' Hlt). discriminate.
      * injection Hs as <- Hs.
        apply alpha_run_before_dot in Hs; auto.
        rewrite length_app. simpl. lia.
    + (* the second one cannot be longer *)
      destruct k as [|c k].
      * rewrite app_nil_r. simpl in Hs. injection Hs as Hs.
        destruct (Nat.le_gt_cases (length t') (length t)) as [|Hlt]; [lia|].
        specialize (Htmax t' u' Hs Ht' Hlt). discriminate.
      * exfalso.
        assert (Hsplit : d ++ DOT :: t ++ r =
                         (d ++ c :: k) ++ DOT :: t' ++ u').
        { rewrite <- app_assoc. f_equal. exact Hs. }
        assert (Hlen : (length d < length (d ++ c :: k))%nat)
          by (rewrite length_app; simpl; lia).
        specialize (Hdmax _ _ Hsplit Hd' Hlen).
        change (Re.rep is_alpha (λ s : str, Some s) 2 (t' ++ u') = None)
          in Hdmax.
        assert (Hsome : is_Some (Re.rep is_alpha (λ s : str, Some s) 2
                                   (t' ++ u'))).
        { apply (rep_complete _ _ _ _ t' u'); auto. }
        rewrite Hdmax in Hsome. destruct Hsome; discriminate.
Qed.

(** Where the pattern does not match, no email starts. *)
Lemma no_email_at_start (m post : str) :
  Re.match_here EMAIL_BODY (m ++ post) = None → ¬ full_match_email m.
Proof.
  intros Hnone Hm.
  assert (H : is_Some (Re.match_here (EMAIL_BODY ++ []) (m ++ post)))
    by (apply match_email_complete; simpl; eauto).
  rewrite app_nil_r, Hnone in H. destruct H; discriminate.
Qed.

(** [search] returns the first email of the line. *)
Lemma search_first_email : ∀ s m,
  Re.search EMAIL_BODY s = Some m → first_email s m.
Proof.
  assert (Hhere : ∀ s r, Re.match_here EMAIL_BODY s = Some r →
            first_email s (take (length s - length r)%nat s)).
  { intros s r E.
    destruct (match_email_longest s r E) as (m & -> & Hm & Hmax).
    rewrite take_app_length_diff.
    exists [], r. split; [reflexivity|]. split; [exact Hm|].
    intros pre' m' post' Hs Hm'. split; [simpl; lia|].
    intros Hlen. destruct pre'; [|discriminate].
    apply (Hmax m' post'); auto. }
  induction s as [|c s IH]; intros m H; rewrite search_unfold in H.
  - destruct (Re.match_here EMAIL_BODY []) as [r|] eqn:E; [|discriminate].
    injection H as <-. exact (Hhere _ _ E).
  - destruct (Re.match_here EMAIL_BODY (c :: s)) as [r|] eqn:E.
    + injection H as <-. exact (Hhere _ _ E).
    + destruct (IH _ H) as (pre & post & -> & Hm & Hfirst).
      exists (c :: pre), post. split; [reflexivity|]. split; [exact Hm|].
      intros pre' m' post' Hs Hm'.
      destruct pre' as [|c' pre'].
      * exfalso. simpl in Hs. rewrite Hs in E.
        exact (no_email_at_start _ _ E Hm').
      * injection Hs as _ Hs. destruct (Hfirst _ _ _ Hs Hm') as [H1 H2].
        simpl. split; [lia|]. intros Hlen. apply H2. lia.
Qed.

(** A line has at most one first email. *)
Lemma first_email_unique (s m m' : str) :
  first_email s m → first_email s m' → m = m'.
Proof.
  intros (pre & post & Hs & Hm & Hfirst) (pre' & post' & Hs' & Hm' & Hfirst').
  destruct (Hfirst _ _ _ Hs' Hm') as [H1 H2].
  destruct (Hfirst' _ _ _ Hs Hm) as [H1' H2'].
  assert (Hpre : length pre = length pre') by lia.
  assert (Hlen : length m = length m').
  { specialize (H2 (eq_sym Hpre)). specialize (H2' Hpre). lia. }
  rewrite Hs in Hs'.
  apply app_inj_1 in Hs' as [_ Hs']; [|exact Hpre].
  apply app_inj_1 in Hs' as [Hmm _]; [|exact Hlen]. exact Hmm.
Qed.

Lemma first_email_search (s m : str) :
  first_email s m ↔ Re.search EMAIL_BODY s = Some m.
Proof.
  split; [|apply search_first_email].
  intros Hfirst. pose proof Hfirst as (pre & post & -> & Hm & _).
  destruct (search_complete pre m post Hm) as [m0 Hm0].
  rewrite Hm0. f_equal. symmetry.
  apply (first_email_unique _ _ _ Hfirst).
  now apply search_first_email.
Qed.

(** ** The lines and the emails of a run *)

Lemma in_trace_after {A} (e : Event) t (m : M A) :
  In e t ∨ In e (trace m) → In e (trace (after t m)).
Proof. unfold after, trace. simpl. rewrite in_app_iff. auto. Qed.

Lemma process_csv_phase1_line rt fs csv_path txt_path df :
  read_csv fs csv_path = Ok df →
  has_column df EMAIL_COLUMN = true →
  has_column df LOGIN_COLUMN = true →
  In (Print [Txt "Phase 1: Filtered ";
             Int (len df - length (List.filter (logged_in df) (rows df)));
             Txt " rows (kept ";
             Int (length (List.filter (logged_in df) (rows df)));
             Txt " users who have logged in)"])
     (trace (process_csv rt fs csv_path txt_path)).
Proof.
  intros Hread He Hl. unfold process_csv. mstep. rewrite Hread. mstep.
  unfold validate_csv_format. cbn [List.filter]. rewrite He, Hl.
  cbn [negb]. mstep.
  destruct (phase1_rows df Hl) as (status & -> & Hrows). mstep.
  replace (len (select df (ne status NEVER_LOGGED_IN)))
    with (length (List.filter (logged_in df) (rows df)))
    by (unfold len; now rewrite Hrows).
  apply in_trace_after. left. find_event.
Qed.

Lemma main_includes_process_csv rt fs csv_path txt_path e :
  csv_path ≠ [] →
  In e (trace (process_csv rt fs csv_path txt_path)) →
  In e (trace (main rt fs csv_path txt_path)).
Proof.
  intros Hpath. unfold main. mstep.
  destruct csv_path as [|c csv']; [congruence|].
  destruct (process_csv_eq rt fs (c :: csv') txt_path) as (t & -> & _).
  cbn [trace snd]. intros Hin.
  destruct (chosen txt_path); mstep;
    apply in_trace_after; left; apply in_or_app; right; exact Hin.
Qed.

Lemma process_files_phase1_line rt fs csv_path txt_path df :
  read_csv fs csv_path = Ok df →
  has_column df EMAIL_COLUMN = true →
  has_column df LOGIN_COLUMN = true →
  In (Log [Txt "Phase 1: Found ";
           Int (length (List.filter (logged_in df) (rows df)));
           Txt " users who have logged in"])
     (trace (Gui.process_files rt fs csv_path txt_path)).
Proof.
  intros Hread He Hl. unfold Gui.process_files.
  assert (Hsel : ∃ t0, (match chosen txt_path with
           | Some p => Gui.log [Txt "TXT file: "; Base p]
           | None => Gui.log [Txt "No TXT file selected (no exclusions)"]
           end) = (Ok tt, t0)).
  { destruct (chosen txt_path); eexists; reflexivity. }
  destruct Hsel as (t0 & ->). mstep. rewrite Hread. mstep.
  cbn [List.filter]. rewrite He, Hl. cbn [negb]. mstep.
  destruct (phase1_rows df Hl) as (status & -> & Hrows). mstep.
  replace (len (select df (ne status NEVER_LOGGED_IN)))
    with (length (List.filter (logged_in df) (rows df)))
    by (unfold len; now rewrite Hrows).
  apply in_trace_after. left. find_event.
Qed.

Lemma survives_kept u X df :
  List.filter (survives u X df) (rows df) =
  List.filter
    (fun row => negb (excluded u X df row) && validate_email (email_of df row))
    (List.filter (logged_in df) (rows df)).
Proof.
  rewrite filter_filter. apply filter_ext. intros row.
  unfold survives. now rewrite andb_assoc.
Qed.

(** The emails handed to the writer, row by row. *)
Lemma emails_to_write_rows rt fs csv_path txt_path df :
  read_csv fs csv_path = Ok df →
  has_column df EMAIL_COLUMN = true →
  has_column df LOGIN_COLUMN = true →
  exclusion_set rt fs txt_path = ∅ ∨
  str_accessor_ok rt
    (List.map (email_of df) (List.filter (logged_in df) (rows df))) = true →
  emails_to_write rt fs csv_path txt_path =
    match List.map (email_of df)
            (List.filter (survives (unicode rt) (exclusion_set rt fs txt_path) df)
               (rows df))
    with
    | [] => None
    | e :: es => Some (e :: es)
    end.
Proof.
  intros Hread He Hl Hacc. unfold emails_to_write.
  rewrite Hread, He, Hl. cbn [andb].
  destruct (List.filter (logged_in df) (rows df)) as [|r rs] eqn:Hkept.
  - now rewrite survives_kept, Hkept.
  - assert (Hok : bool_decide (exclusion_set rt fs txt_path = ∅) ||
                  str_accessor_ok rt (List.map (email_of df) (r :: rs)) = true).
    { destruct Hacc as [HX | Hs].
      - rewrite (bool_decide_eq_true_2 _ HX). reflexivity.
      - rewrite Hs. apply orb_true_r. }
    rewrite Hok. reflexivity.
Qed.

(** ** The claims *)

(** C1. For every row of the loaded table, the row survives the phase-1
    login-status filter if and only if the value of its field
    [Last Sign In [READ ONLY]] is not exactly the string "Never logged in",
    compared exactly and with case.  A run shows it: for a chosen table that
    loads with both mandatory columns, the script and the window report the
    number of rows kept; with no row kept they stop on the "No Data"
    warning; and when the exclusion step can run, [process_csv] returns, and
    both front ends write, the emails of the kept rows that pass exclusion
    and validation, and of no other row. *)
Theorem C1_login_status_filter rt fs csv_path txt_path df :
  csv_path ≠ [] →
  read_csv fs csv_path = Ok df →
  has_column df EMAIL_COLUMN = true →
  has_column df LOGIN_COLUMN = true →
  let kept :=
    List.filter
      (fun row =>
         negb (bool_decide (status_of df row = VStr (lit "Never logged in"))))
      (rows df) in
  let passes := fun row =>
    negb (excluded (unicode rt) (exclusion_set rt fs txt_path) df row) &&
    validate_email (email_of df row) in
  let written :=
    match List.map (email_of df) (List.filter passes kept) with
    | [] => []
    | e :: es =>
        let p := {| parent_of := csv_path;
                    name := extract_domain (unicode rt) e ++
                            lit "-to-delete.csv" |} in
        if writable fs p
        then [(p, {| header := [lit "primaryEmail"];
                     records := List.map (fun e => [e]) (e :: es) |})]
        else []
    end in
  (∀ row, In row kept ↔
          In row (rows df) ∧
          status_of df row ≠ VStr (lit "Never logged in")) ∧
  In (Print [Txt "Phase 1: Filtered ";
             Int (length (rows df) - length kept);
             Txt " rows (kept "; Int (length kept);
             Txt " users who have logged in)"])
     (trace (main rt fs csv_path txt_path)) ∧
  In (Log [Txt "Phase 1: Found "; Int (length kept);
           Txt " users who have logged in"])
     (trace (Gui.process_files rt fs csv_path txt_path)) ∧
  (kept = [] →
   dialogs (trace (main rt fs csv_path txt_path)) =
     [ShowWarning "No Data"
        [Txt "No users who have logged in found. Output will be empty."]] ∧
   dialogs (trace (Gui.process_files rt fs csv_path txt_path)) =
     [ShowWarning "No Data" [Txt "No users who have logged in found."]]) ∧
  (exclusion_set rt fs txt_path = ∅ ∨
   str_accessor_ok rt (List.map (email_of df) kept) = true →
   value (process_csv rt fs csv_path txt_path) =
     Ok (match List.map (email_of df) (List.filter passes kept) with
         | [] => None
         | e :: es =>
             Some (e :: es, extract_domain (unicode rt) e, csv_path)
         end) ∧
   files_written (trace (main rt fs csv_path txt_path)) = written ∧
   files_written (trace (Gui.process_files rt fs csv_path txt_path)) =
     written).
Proof.
  intros Hpath Hread He Hl kept passes written.
  change kept with (List.filter (logged_in df) (rows df)) in *.
  split; [|split; [|split; [|split]]].
  - intros row. rewrite filter_In. unfold logged_in.
    rewrite negb_true_iff, bool_decide_eq_false. reflexivity.
  - apply main_includes_process_csv; [exact Hpath|].
    exact (process_csv_phase1_line rt fs csv_path txt_path df Hread He Hl).
  - exact (process_files_phase1_line rt fs csv_path txt_path df Hread He Hl).
  - intros Hnone.
    rewrite main_dialogs, process_files_dialogs.
    unfold script_box, window_box. rewrite Hread.
    rewrite (proj2 (missing_columns_nil df) (conj He Hl)), Hnone.
    destruct csv_path; [congruence|]. split; reflexivity.
  - intros Hacc.
    pose proof (emails_to_write_rows rt fs csv_path txt_path df
                  Hread He Hl Hacc) as Hes.
    rewrite survives_kept in Hes. fold passes in Hes.
    destruct csv_path as [|c csv']; [congruence|].
    destruct (process_csv_eq rt fs (c :: csv') txt_path) as (tp & -> & _).
    destruct (main_eq rt fs (c :: csv') txt_path) as (tm & -> & Hf & _).
    destruct (gui_process_files_eq rt fs (c :: csv') txt_path)
      as (tg & -> & Hf' & _).
    cbn [value trace fst snd]. rewrite Hf, Hf', Hes. subst written.
    destruct (List.map (email_of df) (List.filter passes _)) as [|e es];
      repeat split; reflexivity.
Qed.

Lemma C1_witness :
  lit "users.csv" ≠ [] ∧
  read_csv sample_fs (lit "users.csv") = Ok sample_table ∧
  has_column sample_table EMAIL_COLUMN = true ∧
  has_column sample_table LOGIN_COLUMN = true ∧
  In (Print [Txt "Phase 1: Filtered "; Int 1; Txt " rows (kept "; Int 5;
             Txt " users who have logged in)"])
     (trace (main sample_runtime sample_fs (lit "users.csv")
               (Some (lit "exclude.txt")))) ∧
  In (Log [Txt "Phase 1: Found "; Int 5; Txt " users who have logged in"])
     (trace (Gui.process_files sample_runtime sample_fs (lit "users.csv")
               (Some (lit "exclude.txt")))) ∧
  files_written
    (trace (main sample_runtime sample_fs (lit "users.csv")
              (Some (lit "exclude.txt")))) =
    [({| parent_of := lit "users.csv"; name := lit "x.com-to-delete.csv" |},
      {| header := [lit "primaryEmail"];
         records := [[VStr (lit "ann@x.com")]; [VStr (lit "Cy@Y.org")]] |})].
Proof.
  assert (Hpath : lit "users.csv" ≠ []) by discriminate.
  assert (Hread : read_csv sample_fs (lit "users.csv") = Ok sample_table)
    by reflexivity.
  assert (He : has_column sample_table EMAIL_COLUMN = true) by reflexivity.
  assert (Hl : has_column sample_table LOGIN_COLUMN = true) by reflexivity.
  destruct (C1_login_status_filter sample_runtime sample_fs (lit "users.csv")
              (Some (lit "exclude.txt")) sample_table Hpath Hread He Hl)
    as (_ & Hline & Hlog & _ & Hrun).
  destruct (Hrun (or_intror eq_refl)) as (_ & Hfiles & _).
  split; [exact Hpath|]. split; [exact Hread|]. split; [exact He|].
  split; [exact Hl|]. split; [exact Hline|]. split; [exact Hlog|].
  rewrite Hfiles. vm_compute. reflexivity.
Defined.

(** The comparison is exact: a status in another case is kept, the exact
    string is dropped. *)
Example phase1_on_sample_table :
  List.map (fun row => field 0 row)
    (List.filter (logged_in sample_table) (rows sample_table)) =
  [VStr (lit "Ann"); VStr (lit "Cy"); VStr (lit "Di"); VStr (lit "Ed");
   VStr (lit "Flo")].
Proof. reflexivity. Qed.

(** C4. For every run that aborts because a mandatory column is missing,
    because zero rows survive phase 1, or because zero valid emails remain
    after validation, no output file is created and an error or warning
    notice is shown; this holds for the script and for the window. *)
Theorem C4_abort_creates_no_file rt fs csv_path txt_path df :
  csv_path ≠ [] →
  read_csv fs csv_path = Ok df →
  has_column df EMAIL_COLUMN && has_column df LOGIN_COLUMN = false ∨
  List.filter (logged_in df) (rows df) = [] ∨
  List.filter (survives (unicode rt) (exclusion_set rt fs txt_path) df)
    (rows df) = [] →
  files_written (trace (main rt fs csv_path txt_path)) = [] ∧
  existsb is_notice (trace (main rt fs csv_path txt_path)) = true ∧
  files_written (trace (Gui.process_files rt fs csv_path txt_path)) = [] ∧
  existsb is_notice (trace (Gui.process_files rt fs csv_path txt_path)) = true.
Proof.
  intros Hpath Hread Habort.
  pose proof (emails_to_write_none rt fs csv_path txt_path df Hread Habort)
    as Hnone.
  destruct csv_path as [|c csv']; [congruence|].
  destruct (main_eq rt fs (c :: csv') txt_path) as (t & -> & Hf & Hn & _).
  destruct (gui_process_files_eq rt fs (c :: csv') txt_path)
    as (t' & -> & Hf' & Hn' & _).
  cbn [trace snd]. rewrite Hf, Hn, Hf', Hn', Hnone. auto.
Qed.

(** The three ways to abort, each on a table of its own. *)
Lemma C4_witness :
  (lit "headless.csv" ≠ [] ∧
   read_csv sample_fs (lit "headless.csv") = Ok headless_table ∧
   (has_column headless_table EMAIL_COLUMN &&
    has_column headless_table LOGIN_COLUMN = false ∨
    List.filter (logged_in headless_table) (rows headless_table) = [] ∨
    List.filter
      (survives (unicode sample_runtime)
         (exclusion_set sample_runtime sample_fs None) headless_table)
      (rows headless_table) = [])) ∧
  files_written
    (trace (main sample_runtime sample_fs (lit "headless.csv") None)) = [] ∧
  existsb is_notice
    (trace (main sample_runtime sample_fs (lit "headless.csv") None)) = true ∧
  files_written
    (trace (Gui.process_files sample_runtime sample_fs (lit "headless.csv")
              None)) = [] ∧
  existsb is_notice
    (trace (Gui.process_files sample_runtime sample_fs (lit "headless.csv")
              None)) = true.
Proof.
  assert (Hpath : lit "headless.csv" ≠ []) by discriminate.
  assert (Hread : read_csv sample_fs (lit "headless.csv") = Ok headless_table)
    by reflexivity.
  assert (Habort :
    has_column headless_table EMAIL_COLUMN &&
    has_column headless_table LOGIN_COLUMN = false ∨
    List.filter (logged_in headless_table) (rows headless_table) = [] ∨
    List.filter
      (survives (unicode sample_runtime)
         (exclusion_set sample_runtime sample_fs None) headless_table)
      (rows headless_table) = []) by (left; reflexivity).
  split; [auto|].
  exact (C4_abort_creates_no_file sample_runtime sample_fs
           (lit "headless.csv") None headless_table Hpath Hread Habort).
Defined.

(** The scenario of the specification with the exclusion of [b@x.com]:
    nothing valid remains, nothing is written, a warning is shown. *)
Example scenario_all_excluded :
  let fs := {| read_csv := fun _ => Ok scenario_table;
               read_lines := fun _ => Ok [lit "b@x.com"];
               writable := fun _ => true |} in
  let t := trace (main sample_runtime fs (lit "scenario.csv")
                    (Some (lit "exclude.txt"))) in
  files_written t = [] ∧
  In (ShowWarning "No Valid Emails"
        [Txt "No valid email addresses found after processing."]) t.
Proof. vm_compute. intuition. Qed.

(** C5. For every input table, the sequence of emails in the output equals
    the sequence of email-field values of the input rows, restricted to the
    rows that survive all three passes (login status, exclusion,
    validation), in the original row order.  The output is produced: for a
    chosen table that loads with both mandatory columns, an exclusion step
    that can run, at least one surviving row and a writable directory, the
    script and the window each create exactly one file, the same, next to
    the input, and its records are those values, one per record, in row
    order; and whatever file a run creates holds exactly those records. *)
Theorem C5_output_keeps_row_order rt fs csv_path txt_path df :
  csv_path ≠ [] →
  read_csv fs csv_path = Ok df →
  has_column df EMAIL_COLUMN = true →
  has_column df LOGIN_COLUMN = true →
  let survivors :=
    List.filter
      (fun row =>
         logged_in df row &&
         negb (excluded (unicode rt) (exclusion_set rt fs txt_path) df row) &&
         validate_email (email_of df row))
      (rows df) in
  exclusion_set rt fs txt_path = ∅ ∨
  str_accessor_ok rt
    (List.map (email_of df) (List.filter (logged_in df) (rows df))) = true →
  survivors ≠ [] →
  (∀ p, parent_of p = csv_path → writable fs p = true) →
  (∃ p f,
     files_written (trace (main rt fs csv_path txt_path)) = [(p, f)] ∧
     files_written (trace (Gui.process_files rt fs csv_path txt_path)) =
       [(p, f)] ∧
     parent_of p = csv_path ∧
     header f = [lit "primaryEmail"] ∧
     records f = List.map (fun row => [email_of df row]) survivors) ∧
  (∀ p f,
     In (p, f) (files_written (trace (main rt fs csv_path txt_path))) ∨
     In (p, f)
       (files_written (trace (Gui.process_files rt fs csv_path txt_path))) →
     records f = List.map (fun row => [email_of df row]) survivors).
Proof.
  intros Hpath Hread He Hl survivors Hacc Hsome Hw.
  change survivors
    with (List.filter (survives (unicode rt) (exclusion_set rt fs txt_path) df)
            (rows df)) in *.
  pose proof (emails_to_write_rows rt fs csv_path txt_path df
                Hread He Hl Hacc) as Hes.
  split.
  - destruct csv_path as [|c csv']; [congruence|].
    destruct (main_eq rt fs (c :: csv') txt_path) as (tm & -> & Hf & _).
    destruct (gui_process_files_eq rt fs (c :: csv') txt_path)
      as (tg & -> & Hf' & _).
    cbn [trace snd]. rewrite Hf, Hf', Hes.
    destruct (List.filter (survives (unicode rt)
                (exclusion_set rt fs txt_path) df) (rows df))
      as [|row rest] eqn:Hrows; [congruence|].
    cbn [List.map]. cbv zeta.
    rewrite (Hw (output_path (unicode rt) (c :: csv') _) eq_refl).
    eexists _, _. split; [reflexivity|]. split; [reflexivity|].
    split; [reflexivity|]. split; [reflexivity|].
    unfold output_file. cbn [records List.map]. now rewrite map_map.
  - intros p f (es & Hes' & _ & -> & _)%run_files.
    apply emails_to_write_some in Hes' as (df' & Hread' & _ & _ & -> & _).
    assert (df' = df) by congruence. subst df'.
    unfold output_file. cbn [records]. now rewrite map_map.
Qed.

Lemma C5_witness :
  let survivors :=
    List.filter
      (fun row =>
         logged_in sample_table row &&
         negb (excluded plain_unicode
                 (exclusion_set sample_runtime sample_fs
                    (Some (lit "exclude.txt"))) sample_table row) &&
         validate_email (email_of sample_table row))
      (rows sample_table) in
  let written :=
    [({| parent_of := lit "users.csv"; name := lit "x.com-to-delete.csv" |},
      {| header := [lit "primaryEmail"];
         records := [[VStr (lit "ann@x.com")]; [VStr (lit "Cy@Y.org")]] |})] in
  lit "users.csv" ≠ [] ∧
  read_csv sample_fs (lit "users.csv") = Ok sample_table ∧
  has_column sample_table EMAIL_COLUMN = true ∧
  has_column sample_table LOGIN_COLUMN = true ∧
  str_accessor_ok sample_runtime
    (List.map (email_of sample_table)
       (List.filter (logged_in sample_table) (rows sample_table))) = true ∧
  survivors ≠ [] ∧
  (∀ p, parent_of p = lit "users.csv" → writable sample_fs p = true) ∧
  files_written
    (trace (main sample_runtime sample_fs (lit "users.csv")
              (Some (lit "exclude.txt")))) = written ∧
  files_written
    (trace (Gui.process_files sample_runtime sample_fs (lit "users.csv")
              (Some (lit "exclude.txt")))) = written ∧
  List.map (fun row => [email_of sample_table row]) survivors =
    [[VStr (lit "ann@x.com")]; [VStr (lit "Cy@Y.org")]].
Proof.
  cbv zeta.
  assert (Hpath : lit "users.csv" ≠ []) by discriminate.
  assert (Hread : read_csv sample_fs (lit "users.csv") = Ok sample_table)
    by reflexivity.
  assert (He : has_column sample_table EMAIL_COLUMN = true) by reflexivity.
  assert (Hl : has_column sample_table LOGIN_COLUMN = true) by reflexivity.
  assert (Hacc : str_accessor_ok sample_runtime
            (List.map (email_of sample_table)
               (List.filter (logged_in sample_table) (rows sample_table))) =
            true) by reflexivity.
  assert (Hrows :
    List.map (fun row => [email_of sample_table row])
      (List.filter
         (fun row =>
            logged_in sample_table row &&
            negb (excluded plain_unicode
                    (exclusion_set sample_runtime sample_fs
                       (Some (lit "exclude.txt"))) sample_table row) &&
            validate_email (email_of sample_table row))
         (rows sample_table)) =
    [[VStr (lit "ann@x.com")]; [VStr (lit "Cy@Y.org")]])
    by (vm_compute; reflexivity).
  assert (Hsome :
    List.filter
      (fun row =>
         logged_in sample_table row &&
         negb (excluded plain_unicode
                 (exclusion_set sample_runtime sample_fs
                    (Some (lit "exclude.txt"))) sample_table row) &&
         validate_email (email_of sample_table row))
      (rows sample_table) ≠ []).
  { intros H. rewrite H in Hrows. discriminate. }
  assert (Hw : ∀ p, parent_of p = lit "users.csv" →
                    writable sample_fs p = true).
  { intros p Hp. unfold sample_fs, writable. rewrite Hp. reflexivity. }
  destruct (C5_output_keeps_row_order sample_runtime sample_fs
              (lit "users.csv") (Some (lit "exclude.txt")) sample_table
              Hpath Hread He Hl (or_intror Hacc) Hsome Hw)
    as ((p & f & Hmain & Hgui & Hparent & Hheader & Hrecords) & _).
  split; [exact Hpath|]. split; [exact Hread|]. split; [exact He|].
  split; [exact Hl|]. split; [exact Hacc|]. split; [exact Hsome|].
  split; [exact Hw|].
  assert (Hfile :
    [(p, f)] =
    [({| parent_of := lit "users.csv"; name := lit "x.com-to-delete.csv" |},
      {| header := [lit "primaryEmail"];
         records := [[VStr (lit "ann@x.com")]; [VStr (lit "Cy@Y.org")]] |})]).
  { rewrite <- Hmain. vm_compute. reflexivity. }
  split; [now rewrite Hmain|]. split; [now rewrite Hgui|]. exact Hrows.
Defined.

(** The scenario of the specification without an exclusion file: the
    output contains only [b@x.com]. *)
Example scenario_output :
  files_written
    (trace (main sample_runtime sample_fs (lit "scenario.csv") None)) =
  [({| parent_of := lit "scenario.csv"; name := lit "x.com-to-delete.csv" |},
    {| header := [lit "primaryEmail"];
       records := [[VStr (lit "b@x.com")]] |})].
Proof. vm_compute. reflexivity. Qed.

Example scenario_output_window :
  files_written
    (trace (Gui.process_files sample_runtime sample_fs (lit "scenario.csv")
              None)) =
  [({| parent_of := lit "scenario.csv"; name := lit "x.com-to-delete.csv" |},
    {| header := [lit "primaryEmail"];
       records := [[VStr (lit "b@x.com")]] |})].
Proof. vm_compute. reflexivity. Qed.

(** ** Exclusion *)

Lemma excluded_iff u X df row :
  excluded u X df row = true ↔
  ∃ s E, email_of df row = VStr s ∧ E ∈ X ∧ lower u s = E.
Proof.
  unfold excluded. destruct (email_of df row) as [s| |z].
  - rewrite bool_decide_eq_true. split.
    + intros H. exists s, (lower u s). auto.
    + intros (s' & E & [= <-] & HE & <-). exact HE.
  - split; [discriminate|]. intros (s & E & H & _). discriminate.
  - split; [discriminate|]. intros (s & E & H & _). discriminate.
Qed.

Lemma exclusion_set_absent rt fs txt_path :
  chosen txt_path = None → exclusion_set rt fs txt_path = ∅.
Proof. unfold exclusion_set. now intros ->. Qed.

(** C3. For every email E in the exclusion set and every row that survived
    phase 1, if the lower-cased value of the row's email field equals E then
    the row is absent from the output; a row is dropped by the exclusion
    filter if and only if such a match exists; and without an exclusion file
    the filter behaves as with the empty set: no row is dropped.  The
    filter returns unless pandas refuses the [.str] accessor. *)
Theorem C3_exclusion_filter rt fs df txt_path :
  has_column df EMAIL_COLUMN = true →
  (∀ row,
     excluded (unicode rt) (exclusion_set rt fs txt_path) df row = true ↔
     ∃ s E, email_of df row = VStr s ∧ E ∈ exclusion_set rt fs txt_path ∧
            lower (unicode rt) s = E) ∧
  (∀ df',
     value (exclude rt fs df txt_path) = Ok df' ∨
     value (Gui.exclude rt fs df txt_path) = Ok df' →
     rows df' =
       List.filter
         (fun row =>
            negb (excluded (unicode rt) (exclusion_set rt fs txt_path) df row))
         (rows df)) ∧
  (bool_decide (exclusion_set rt fs txt_path = ∅) ||
   str_accessor_ok rt (List.map (email_of df) (rows df)) = true →
   ∃ df', value (exclude rt fs df txt_path) = Ok df' ∧
          value (Gui.exclude rt fs df txt_path) = Ok df') ∧
  (chosen txt_path = None →
   exclusion_set rt fs txt_path = ∅ ∧
   value (exclude rt fs df txt_path) = Ok df ∧
   value (Gui.exclude rt fs df txt_path) = Ok df) ∧
  (∀ csv_path p f s,
     In (p, f) (files_written (trace (main rt fs csv_path txt_path))) ∨
     In (p, f)
       (files_written (trace (Gui.process_files rt fs csv_path txt_path))) →
     In [VStr s] (records f) →
     lower (unicode rt) s ∉ exclusion_set rt fs txt_path).
Proof.
  intros Hcol.
  assert (Habsent : chosen txt_path = None →
            exclusion_set rt fs txt_path = ∅ ∧
            value (exclude rt fs df txt_path) = Ok df ∧
            value (Gui.exclude rt fs df txt_path) = Ok df).
  { intros Hnone. split; [now apply exclusion_set_absent|].
    unfold exclude, Gui.exclude. rewrite Hnone. auto. }
  destruct (exclude_eq rt fs df txt_path Hcol) as (t & E & _).
  destruct (gui_exclude_eq rt fs df txt_path Hcol) as (t' & E' & _).
  rewrite E, E' in *. cbn [value fst] in *.
  split; [intros row; apply excluded_iff|].
  split; [|split; [|split]]; [| |exact Habsent|].
  - intros df' H.
    destruct (_ || _); [|destruct H; discriminate].
    destruct H as [[= <-]|[= <-]]; reflexivity.
  - intros ->. eauto.
  - intros csv_path p f s (es & Hes & _ & -> & _)%run_files Hin.
    apply emails_to_write_some in Hes as (df0 & _ & _ & _ & -> & _).
    unfold output_file in Hin. cbn [records] in Hin.
    rewrite map_map in Hin.
    apply in_map_iff in Hin as (row & [= Hrow] & Hsurv).
    apply filter_In in Hsurv as [_ Hsurv]. unfold survives in Hsurv.
    apply andb_true_iff in Hsurv as [[_ Hex]%andb_true_iff _].
    apply negb_true_iff in Hex. unfold excluded in Hex.
    rewrite Hrow in Hex. now apply bool_decide_eq_false in Hex.
Qed.

Lemma C3_witness :
  has_column sample_table EMAIL_COLUMN = true ∧
  ∃ df',
    value (exclude sample_runtime sample_fs sample_table
             (Some (lit "exclude.txt"))) = Ok df' ∧
    rows df' =
      List.filter
        (fun row =>
           negb (excluded (unicode sample_runtime)
                   (exclusion_set sample_runtime sample_fs
                      (Some (lit "exclude.txt"))) sample_table row))
        (rows sample_table).
Proof.
  split; [reflexivity|].
  destruct (C3_exclusion_filter sample_runtime sample_fs sample_table
              (Some (lit "exclude.txt")) eq_refl)
    as (_ & Hrows & Hreturns & _).
  destruct Hreturns as (df' & Hdf' & _); [vm_compute; reflexivity|].
  exists df'. split; [exact Hdf'|]. apply Hrows. left. exact Hdf'.
Defined.

(** On the sample table the exclusion file removes Ed, whose address it
    names in another case, and nobody else. *)
Example phase2_on_sample_table :
  option_map (fun df' => List.map (field 0) (rows df'))
    (match value (exclude sample_runtime sample_fs sample_table
                    (Some (lit "exclude.txt"))) with
     | Ok df' => Some df'
     | Raise _ => None
     end) =
  Some [VStr (lit "Ann"); VStr (lit "Bob"); VStr (lit "Cy"); VStr (lit "Di");
        VStr (lit "Flo")].
Proof. vm_compute. reflexivity. Qed.

(** ** The name of the output *)

Lemma first_email_valid rt fs csv_path txt_path es :
  emails_to_write rt fs csv_path txt_path = Some es →
  ∃ s rest, es = VStr s :: rest ∧ validate_email (VStr s) = true.
Proof.
  intros (df & _ & _ & _ & Hes & Hne)%emails_to_write_some.
  destruct es as [|e rest]; [congruence|].
  assert (Hin : In e (e :: rest)) by (left; reflexivity).
  rewrite Hes in Hin. apply in_map_iff in Hin as (row & <- & Hrow).
  apply filter_In in Hrow as [_ Hrow]. unfold survives in Hrow.
  apply andb_true_iff in Hrow as [_ Hvalid].
  destruct (email_of df row) as [s| |z]; try discriminate.
  exists s, rest. auto.
Qed.

Lemma main_written rt fs csv_path txt_path p f :
  In (p, f) (files_written (trace (main rt fs csv_path txt_path))) →
  csv_path ≠ [] ∧
  ∃ es, emails_to_write rt fs csv_path txt_path = Some es ∧
    p = output_path (unicode rt) csv_path es ∧ f = output_file es ∧
    writable fs p = true.
Proof.
  intros H. split.
  - intros ->. destruct (main_eq rt fs [] txt_path) as (t & E & Hf & _).
    rewrite E in H. cbn [trace snd] in H. rewrite Hf in H. exact H.
  - apply run_files. left. exact H.
Qed.

Lemma count_cons_same c (s : str) : count c (c :: s) = S (count c s).
Proof. unfold count. simpl. now rewrite N.eqb_refl. Qed.

Lemma no_dot_in_unknown : ¬ In DOT (lit "unknown").
Proof. vm_compute. intuition discriminate. Qed.

Lemma domain_not_unknown (d t : str) : d ++ DOT :: t ≠ lit "unknown".
Proof.
  intros H. apply no_dot_in_unknown. rewrite <- H.
  apply in_or_app. right. left. reflexivity.
Qed.

(** C10. For every value accepted by the email validator, the value
    contains exactly one [@], and [extract_domain] applied to it does not
    take the ['unknown'] fallback: the guard ['@' in email] holds, the split
    has its second piece, and the result is a non-empty string over
    [A-Za-z0-9._-] that is not ['unknown']; hence no run of the script or of
    the window creates a file named [unknown-to-delete.csv]. *)
Theorem C10_valid_email_has_domain (u : Unicode) (s : str) :
  validate_email (VStr s) = true →
  count AT s = 1%nat ∧
  contains AT s = true ∧
  (∃ l d, split AT s = [l; d]) ∧
  extract_domain u (VStr s) ≠ [] ∧
  all_of safe_char (extract_domain u (VStr s)) ∧
  extract_domain u (VStr s) ≠ lit "unknown" ∧
  (∀ rt fs csv_path txt_path p f,
     In (p, f) (files_written (trace (main rt fs csv_path txt_path))) ∨
     In (p, f)
       (files_written (trace (Gui.process_files rt fs csv_path txt_path))) →
     name p ≠ lit "unknown-to-delete.csv").
Proof.
  intros Hvalid.
  destruct (extract_domain_valid u s Hvalid)
    as (l & d & t & tail & -> & Hl & Hd0 & Hd & Ht2 & Ht & Htail & Hdom).
  pose proof (domain_part_chars d t Hd Ht) as Hdt.
  assert (Hrest : all_of (fun c => negb (c =? AT)) ((d ++ DOT :: t) ++ tail)).
  { apply all_of_app. split; [now apply no_at_domain|now apply tail_no_at]. }
  rewrite Hdom. repeat split.
  - rewrite count_app, (count_none AT l) by now apply no_at_local.
    now rewrite count_cons_same, (count_none AT _ Hrest).
  - apply contains_app_sep.
  - exists l, ((d ++ DOT :: t) ++ tail).
    rewrite split_at_first by now apply no_at_local.
    now rewrite split_no_sep.
  - destruct d; [congruence|discriminate].
  - revert Hdt. apply all_of_impl, domain_is_safe.
  - apply domain_not_unknown.
  - intros rt fs csv_path txt_path p f (es & Hes & -> & _)%run_files.
    destruct (first_email_valid _ _ _ _ _ Hes) as (s' & rest & -> & Hs').
    destruct (extract_domain_valid (unicode rt) s' Hs')
      as (_ & d' & t' & _ & _ & _ & _ & _ & _ & _ & _ & Hdom').
    unfold output_path. cbn [name hd]. rewrite Hdom'.
    change (lit "unknown-to-delete.csv")
      with (lit "unknown" ++ lit "-to-delete.csv").
    intros H%app_inv_tail. now apply domain_not_unknown in H.
Qed.

Lemma C10_witness :
  validate_email (VStr (lit "Cy@Y.org")) = true ∧
  count AT (lit "Cy@Y.org") = 1%nat ∧
  extract_domain plain_unicode (VStr (lit "Cy@Y.org")) ≠ lit "unknown".
Proof.
  split; [reflexivity|].
  destruct (C10_valid_email_has_domain plain_unicode (lit "Cy@Y.org") eq_refl)
    as (Hcount & _ & _ & _ & _ & Hunknown & _).
  split; [exact Hcount|exact Hunknown].
Defined.







(** The sample table has two domains: the file is named after the first
    and the console carries the warning. *)
Example two_domains_on_sample_table :
  let es := [VStr (lit "ann@x.com"); VStr (lit "Cy@Y.org")] in
  size (domains_of sample_runtime es) = 2%nat ∧
  In (Print [Txt "Warning: Multiple domains detected: ";
             Strs (elements (domains_of sample_runtime es))])
     (trace (main sample_runtime sample_fs (lit "users.csv")
               (Some (lit "exclude.txt")))).
Proof. vm_compute. intuition. Qed.

(** C7. For every list of N valid emails, writing the output produces a
    table with exactly N data rows plus one header row whose single column
    is named [primaryEmail], with no index column: each record holds one
    field, the email. *)
Theorem C7_written_table fs emails domain csv_path :
  writable fs {| parent_of := csv_path;
                 name := domain ++ lit "-to-delete.csv" |} = true →
  ∃ p f,
    files_written (trace (save_output fs emails domain csv_path)) = [(p, f)] ∧
    header f = [lit "primaryEmail"] ∧
    length (records f) = length emails ∧
    records f = List.map (fun e => [e]) emails ∧
    ∀ r, In r (records f) → length r = 1%nat.
Proof.
  intros Hw.
  destruct (save_output_eq fs emails domain csv_path) as (t & -> & Hf & _).
  cbn [trace snd]. rewrite Hf, Hw.
  eexists _, _. split; [reflexivity|].
  unfold output_file. cbn [header records].
  split; [reflexivity|]. split; [now rewrite length_map|].
  split; [reflexivity|].
  intros r (e & <- & _)%in_map_iff. reflexivity.
Qed.

Lemma C7_witness :
  let emails := [VStr (lit "a@x.com"); VStr (lit "b@x.com")] in
  writable sample_fs {| parent_of := lit "users.csv";
                        name := lit "x.com" ++ lit "-to-delete.csv" |} = true ∧
  ∃ p f,
    files_written
      (trace (save_output sample_fs emails (lit "x.com") (lit "users.csv"))) =
      [(p, f)] ∧
    header f = [lit "primaryEmail"] ∧
    length (records f) = length emails ∧
    records f = List.map (fun e => [e]) emails ∧
    ∀ r, In r (records f) → length r = 1%nat.
Proof.
  cbv zeta. split; [reflexivity|].
  apply (C7_written_table sample_fs
           [VStr (lit "a@x.com"); VStr (lit "b@x.com")]
           (lit "x.com") (lit "users.csv")).
  reflexivity.
Defined.

(** With [index=True] the table would carry a first, unnamed column. *)
Example to_csv_with_index :
  files_written
    (trace (to_csv sample_fs
              (frame_of_column (lit "primaryEmail") [VStr (lit "a@x.com")])
              {| parent_of := lit "users.csv"; name := lit "out.csv" |} true)) =
  [({| parent_of := lit "users.csv"; name := lit "out.csv" |},
    {| header := [[]; lit "primaryEmail"];
       records := [[VNum 0; VStr (lit "a@x.com")]] |})].
Proof. reflexivity. Qed.

(** ** The exclusion set *)

Lemma lstrip_head u (s : str) c s' :
  lstrip u s = c :: s' → isspace u c = false.
Proof.
  induction s as [|x s IH]; simpl; [discriminate|].
  destruct (isspace u x) eqn:Hx; auto.
  intros [= -> _]. exact Hx.
Qed.

(** A stripped line does not end in white space. *)
Lemma strip_last u (s s' : str) c :
  strip u s = s' ++ [c] → isspace u c = false.
Proof.
  unfold strip. intros H.
  apply (f_equal (@rev _)) in H. rewrite rev_involutive, rev_app_distr in H.
  simpl in H. exact (lstrip_head _ _ _ _ H).
Qed.

Lemma newline_is_space u : isspace u 10 = true.
Proof. reflexivity. Qed.

(** On a stripped line the validator accepts full matches only. *)
Lemma validate_stripped u (line : str) :
  validate_email (VStr (strip u line)) = true →
  full_match_email (strip u line).
Proof.
  intros [H | (s' & Hs & _)]%validate_email_iff; [exact H|].
  apply strip_last in Hs. now rewrite newline_is_space in Hs.
Qed.

(** The second branch of the loop never adds anything: when the search
    finds nothing, the validator rejects the line. *)
Lemma search_none_not_valid (s : str) :
  Re.search EMAIL_BODY s = None → validate_email (VStr s) = false.
Proof.
  intros Hnone. destruct (validate_email (VStr s)) eqn:Hv; [|reflexivity].
  apply validate_email_iff in Hv as [H | (s' & -> & H)].
  - destruct (search_complete [] s [] H) as [m Hm].
    simpl in Hm. rewrite app_nil_r in Hm. congruence.
  - destruct (search_complete [] s' [10] H) as [m Hm].
    simpl in Hm. congruence.
Qed.

Lemma add_line_spec u X line E :
  E ∈ add_line u X line ↔
  E ∈ X ∨ ∃ m, strip u line ≠ [] ∧
               Re.search EMAIL_BODY (strip u line) = Some m ∧ E = lower u m.
Proof.
  unfold add_line. destruct (strip u line) as [|c s] eqn:Hs.
  - split; [auto|]. intros [H | (m & Hne & _)]; [exact H|congruence].
  - destruct (Re.search EMAIL_BODY (c :: s)) as [m|] eqn:Hm.
    + rewrite elem_of_union, elem_of_singleton. split.
      * intros [-> | H]; [right|left; exact H].
        exists m. repeat split; auto; discriminate.
      * intros [H | (m' & _ & [= <-] & ->)]; auto.
    + rewrite (search_none_not_valid _ Hm). split; [auto|].
      intros [H | (m & _ & H & _)]; [exact H|discriminate].
Qed.

Lemma fold_add_line_spec u lines : ∀ X E,
  E ∈ fold_left (add_line u) lines X ↔
  E ∈ X ∨ ∃ line m, In line lines ∧ strip u line ≠ [] ∧
                    Re.search EMAIL_BODY (strip u line) = Some m ∧
                    E = lower u m.
Proof.
  induction lines as [|line lines IH]; intros X E; simpl.
  - split; [auto|]. intros [H | (l & m & [] & _)]. exact H.
  - rewrite IH, add_line_spec. split.
    + intros [[H | (m & H)] | (l & m & Hin & H)]; eauto 10.
    + intros [H | (l & m & [<- | Hin] & H)]; eauto 10.
Qed.

Lemma exclusion_of_lines_spec u lines E :
  E ∈ exclusion_of_lines u lines ↔
  ∃ line m, In line lines ∧ strip u line ≠ [] ∧
            Re.search EMAIL_BODY (strip u line) = Some m ∧ E = lower u m.
Proof.
  unfold exclusion_of_lines. rewrite fold_add_line_spec.
  split; [|auto]. intros [H | H]; [|exact H]. set_solver.
Qed.

(** What the pattern matches is ASCII, so lower-casing it does not depend on
    the Unicode tables. *)
Lemma full_match_ascii (m : str) :
  full_match_email m → forallb is_ascii m = true.
Proof.
  intros (l & d & t & -> & _ & Hl & _ & Hd & _ & Ht).
  change (all_of is_ascii (l ++ AT :: d ++ DOT :: t)).
  apply all_of_app. split.
  - revert Hl. apply all_of_impl. intros c. classes.
  - apply all_of_cons. split; [reflexivity|].
    apply all_of_app. split.
    + revert Hd. apply all_of_impl, domain_is_ascii.
    + apply all_of_cons. split; [reflexivity|].
      revert Ht. apply all_of_impl. intros c. classes.
Qed.

Lemma lower_full_match u (m : str) :
  full_match_email m → lower u m = List.map lower_ascii m.
Proof. intros H. unfold lower. now rewrite (full_match_ascii m H). Qed.

(** C8 (corrected). For every exclusion file the exclusion set is built
    line by line: a line, stripped of the white space around it, contributes
    at most one address, the first email embedded in it (leftmost start,
    longest at that start: the match of the unanchored search), lower-cased;
    further addresses on the same line are ignored; a line that is itself
    exactly a valid email contributes the whole line, lower-cased; a line
    without an embedded email contributes nothing; the result is a set, so
    it depends neither on the order of the lines nor on their repetition.
    The script and the window return this set when the file can be read. *)
Theorem C8_exclusion_set_of_lines rt fs txt_path lines :
  (∀ E,
     E ∈ exclusion_of_lines (unicode rt) lines ↔
     ∃ line m, In line lines ∧ first_email (strip (unicode rt) line) m ∧
       E = lower (unicode rt) m) ∧
  (∀ line m, first_email (strip (unicode rt) line) m ↔
     Re.search EMAIL_BODY (strip (unicode rt) line) = Some m) ∧
  (∀ line m m',
     first_email (strip (unicode rt) line) m →
     first_email (strip (unicode rt) line) m' → m = m') ∧
  (∀ line pre m post,
     In line lines → strip (unicode rt) line = pre ++ m ++ post →
     full_match_email m →
     ∃ m',
       first_email (strip (unicode rt) line) m' ∧
       lower (unicode rt) m' = List.map lower_ascii m' ∧
       lower (unicode rt) m' ∈ exclusion_of_lines (unicode rt) lines) ∧
  (∀ line,
     In line lines → validate_email (VStr (strip (unicode rt) line)) = true →
     first_email (strip (unicode rt) line) (strip (unicode rt) line) ∧
     lower (unicode rt) (strip (unicode rt) line) ∈
       exclusion_of_lines (unicode rt) lines) ∧
  (∀ lines',
     (∀ line, In line lines ↔ In line lines') →
     exclusion_of_lines (unicode rt) lines' =
     exclusion_of_lines (unicode rt) lines) ∧
  (read_lines fs txt_path = Ok lines →
   value (load_exclusion_emails rt fs txt_path) =
     Ok (exclusion_of_lines (unicode rt) lines) ∧
   value (Gui.load_exclusion_emails rt fs txt_path) =
     Ok (exclusion_of_lines (unicode rt) lines)).
Proof.
  set (u := unicode rt).
  assert (Hmem : ∀ E,
     E ∈ exclusion_of_lines u lines ↔
     ∃ line m, In line lines ∧ first_email (strip u line) m ∧ E = lower u m).
  { intros E. rewrite exclusion_of_lines_spec. split.
    - intros (line & m & Hin & _ & Hm & ->). exists line, m.
      repeat split; auto. now apply first_email_search.
    - intros (line & m & Hin & Hm & ->). exists line, m.
      repeat split; auto; [|now apply first_email_search].
      destruct Hm as (pre & post & -> & (l & d & t & -> & _) & _).
      intros H. apply (f_equal (@length _)) in H.
      rewrite !length_app in H. simpl in H. rewrite length_app in H.
      simpl in H. lia. }
  split; [exact Hmem|].
  split; [intros line m; apply first_email_search|].
  split; [intros line m m'; apply first_email_unique|].
  split; [|split; [|split]].
  - intros line pre m post Hin Hline Hm.
    destruct (search_complete pre m post Hm) as [m' Hm'].
    rewrite <- Hline in Hm'. apply first_email_search in Hm' as Hfirst.
    exists m'. split; [exact Hfirst|].
    destruct Hfirst as (_ & _ & _ & Hfull & _).
    split; [now apply lower_full_match|].
    apply Hmem. exists line, m'. repeat split; auto.
    now apply first_email_search.
  - intros line Hin Hvalid.
    pose proof (validate_stripped u line Hvalid) as Hfull.
    pose proof (search_exact _ Hfull) as Hsearch.
    apply first_email_search in Hsearch.
    split; [exact Hsearch|].
    apply Hmem. exists line, (strip u line). auto.
  - intros lines' Hsame. apply set_eq. intros E.
    rewrite !exclusion_of_lines_spec. split.
    + intros (line & m & Hin & H). exists line, m. split; [|exact H].
      now apply Hsame.
    + intros (line & m & Hin & H). exists line, m. split; [|exact H].
      now apply Hsame.
  - intros Hread.
    destruct (load_exclusion_emails_eq rt fs txt_path) as (t & -> & _).
    destruct (gui_load_exclusion_emails_eq rt fs txt_path) as (t' & -> & _).
    rewrite Hread. auto.
Qed.

(** The claim as first worded does not hold: the line
    [a@x.com, b@x.com] contains the email [b@x.com], which the set does not
    get. *)
Lemma C8_counterexample :
  let line := lit "a@x.com, b@x.com" in
  In line [line] ∧
  strip plain_unicode line = lit "a@x.com, " ++ lit "b@x.com" ++ [] ∧
  full_match_email (lit "b@x.com") ∧
  (lower plain_unicode (lit "b@x.com") ∉
     exclusion_of_lines plain_unicode [line]) ∧
  exclusion_of_lines plain_unicode [line] = {[ lit "a@x.com" ]}.
Proof.
  cbv zeta.
  assert (Hset : exclusion_of_lines plain_unicode [lit "a@x.com, b@x.com"] =
                 {[ lit "a@x.com" ]}).
  { apply set_eq. intros E. rewrite exclusion_of_lines_spec.
    rewrite elem_of_singleton. split.
    - intros (line & m & [<- | []] & _ & Hm & ->).
      vm_compute in Hm. injection Hm as <-. reflexivity.
    - intros ->. exists (lit "a@x.com, b@x.com"), (lit "a@x.com").
      repeat split; [left; reflexivity | discriminate]. }
  split; [left; reflexivity|]. split; [reflexivity|].
  split.
  { exists (lit "b"), (lit "x"), (lit "com").
    repeat split; try reflexivity; try discriminate. simpl. lia. }
  split; [|exact Hset].
  rewrite Hset, elem_of_singleton. discriminate.
Qed.

(** The exclusion file of the sample: the free-text line of the
    specification gives [c@x.com]; the two spellings of Ed's address give
    one element; blank lines and lines without an address give nothing. *)
Example exclusion_set_of_sample_file :
  elements (exclusion_of_lines plain_unicode exclusion_lines) =
  elements ({[ lit "c@x.com"; lit "ed@x.com" ]} : gset str).
Proof. vm_compute. reflexivity. Qed.

(** A line with two addresses contributes the first one only. *)
Example two_addresses_on_a_line :
  elements
    (exclusion_of_lines plain_unicode [lit "a@x.com, b@x.com"]) =
  [lit "a@x.com"].
Proof. vm_compute. reflexivity. Qed.

(** ** Unreadable and unwritable files *)


Lemma emails_to_write_ext rt fs csv_path txt_path txt_path' :
  exclusion_set rt fs txt_path = exclusion_set rt fs txt_path' →
  emails_to_write rt fs csv_path txt_path =
  emails_to_write rt fs csv_path txt_path'.
Proof. unfold emails_to_write. now intros ->. Qed.




(** The three cases on the sample file system. *)
Example unreadable_table :
  let t := trace (main sample_runtime sample_fs (lit "missing.csv") None) in
  files_written t = [] ∧
  In (ShowError "Error" [Txt "Error processing CSV: "; Exc OSError]) t.
Proof. vm_compute. intuition. Qed.

Example unwritable_output :
  let t := trace (main sample_runtime sample_fs (lit "readonly.csv") None) in
  files_written t = [] ∧
  In (ShowError "Error" [Txt "Error saving output: "; Exc OSError]) t.
Proof. vm_compute. intuition. Qed.

Example unreadable_exclusion_file :
  In (Print [Txt "Error reading exclusion file: "; Exc OSError])
    (trace (main sample_runtime sample_fs (lit "scenario.csv")
              (Some (lit "locked.txt")))).
Proof. vm_compute. intuition. Qed.

(** ** The validator and the final newline *)

Lemma full_match_last (s : str) :
  full_match_email s → ∃ s' c, s = s' ++ [c] ∧ is_alpha c = true.
Proof.
  intros (l & d & t & -> & _ & _ & _ & _ & Ht2 & Ht).
  destruct (exists_last (l := t)) as (t' & c & ->).
  { intros ->. simpl in Ht2. lia. }
  apply all_of_app in Ht as [_ [Hc _]%all_of_cons].
  exists (l ++ AT :: d ++ DOT :: t'), c. split; [|exact Hc].
  rewrite <- !app_assoc. simpl. now rewrite <- app_assoc.
Qed.

Lemma full_match_no_final_newline (s : str) :
  ¬ full_match_email (s ++ [10]).
Proof.
  intros (s' & c & [_ <-]%app_inj_tail & Hc)%full_match_last.
  discriminate.
Qed.

(** On every value that does not end in a newline the validator and the
    pattern of the specification agree. *)
Lemma validate_email_without_final_newline (s : str) :
  (∀ s', s ≠ s' ++ [10]) →
  validate_email (VStr s) = true ↔ full_match_email s.
Proof.
  intros Hs. rewrite validate_email_iff. split; [|auto].
  intros [H | (s' & H & _)]; [exact H|]. now apply Hs in H.
Qed.

(** Values that are not strings are rejected. *)
Lemma validate_email_not_str (c : Cell) :
  is_str c = false → validate_email c = false.
Proof. now destruct c. Qed.

(** C2, where the code departs from the claim.  The validator accepts
    ["a@x.com\n"], an address followed by a newline, although the value
    does not match the pattern over its full length: [$] also holds just
    before a final newline.  A table that holds this value in a quoted field
    gets it, newline included, into the output. *)
Theorem C2_trailing_newline_accepted :
  validate_email (VStr (lit "a@x.com" ++ [10])) = true ∧
  ¬ full_match_email (lit "a@x.com" ++ [10]) ∧
  files_written
    (trace (main sample_runtime sample_fs (lit "newline.csv") None)) =
    [({| parent_of := lit "newline.csv"; name := lit "x.com-to-delete.csv" |},
      {| header := [lit "primaryEmail"];
         records := [[VStr (lit "a@x.com" ++ [10])]] |})].
Proof.
  split; [reflexivity|]. split; [apply full_match_no_final_newline|].
  vm_compute. reflexivity.
Qed.

(** The validator on a few values. *)
Example validate_email_examples :
  List.map validate_email
    [VStr (lit "b@x.com"); VStr (lit "a.b+c@x-y.co.uk"); VStr (lit "bad@@x");
     VStr (lit "a@x.c"); VStr (lit " a@x.com"); VStr (lit "a@x.com" ++ [10]);
     VStr (lit "a@x.com" ++ [10; 10]); VNaN; VNum 7] =
  [true; true; false; false; false; true; false; false; false].
Proof. reflexivity. Qed.
(** ** The dialogs of the script *)

(** What the selection functions return is what [main] is given. *)
Lemma selection_values (csv_answer : str) (yes : bool) (txt_answer : str) :
  value (Interactive.select_csv_file csv_answer) =
    Ok (select_csv_file csv_answer) ∧
  value (Interactive.select_txt_file yes txt_answer) =
    Ok (select_txt_file yes txt_answer).
Proof. destruct yes; split; reflexivity. Qed.

Lemma silent_no_ask t : silent t → existsb is_ask t = false.
Proof. apply silent_quiet. now intros []. Qed.

Ltac ask_facts :=
  repeat (progress (
    cbn [existsb is_ask app orb];
    rewrite ?existsb_app;
    repeat match goal with
    | H : silent ?t |- _ => progress (rewrite ?(silent_no_ask t H))
    end)).

Ltac finish_ask :=
  eexists _, _; split; [reflexivity | ask_facts; reflexivity].

(** [process_csv], [save_output] and so [main] open no dialog that asks. *)
Lemma process_csv_no_ask rt fs csv_path txt_path : ∃ v t,
  process_csv rt fs csv_path txt_path = (v, t) ∧ existsb is_ask t = false.
Proof.
  unfold process_csv. mstep.
  destruct (read_csv fs csv_path) as [df|e]; mstep; [|finish_ask].
  unfold validate_csv_format. cbn [List.filter].
  destruct (has_column df EMAIL_COLUMN) eqn:He,
    (has_column df LOGIN_COLUMN) eqn:Hl; cbn [negb andb]; mstep;
    try finish_ask.
  destruct (phase1_rows df Hl) as (status & -> & Hrows). mstep.
  destruct (len (select df (ne status NEVER_LOGGED_IN)) =? 0)%nat;
    mstep; [finish_ask|].
  destruct (exclude_eq rt fs (select df (ne status NEVER_LOGGED_IN)) txt_path He)
    as (t2 & -> & Ht2).
  destruct (_ || _); mstep; [|finish_ask].
  unfold getitem. cbn [columns rows].
  change (columns (select df (ne status NEVER_LOGGED_IN))) with (columns df).
  rewrite (has_column_index _ _ He). mstep.
  match goal with |- context [validate_all ?es [] 0] =>
    destruct (validate_all_eq es [] O) as (t3 & -> & Ht3) end.
  mstep. cbn [app].
  match goal with |- context [(0 <? ?n)%nat] => destruct (0 <? n)%nat end;
    match goal with |- context [match ?l with [] => _ | _ :: _ => _ end] =>
      destruct l as [|first rest] end; mstep; try finish_ask;
    destruct (1 <? size (domains_of rt (first :: rest)))%nat;
    mstep; finish_ask.
Qed.

Lemma save_output_no_ask fs emails domain csv_path : ∃ v t,
  save_output fs emails domain csv_path = (v, t) ∧ existsb is_ask t = false.
Proof.
  unfold save_output, to_csv.
  destruct (writable fs _); mstep; finish_ask.
Qed.

(** The part of [main] that follows the selection of the two files. *)
Lemma after_selection_no_ask rt fs csv_path txt_path : ∃ v t,
  (do processed <- process_csv rt fs csv_path txt_path;
   match processed with
   | None => safe_print [Txt "Processing failed or no data to output."]
   | Some (emails, domain, input_path) =>
       do output_path <- save_output fs emails domain input_path;
       match output_path with
       | Some _ => safe_print [Txt "Script completed successfully!"]
       | None => safe_print [Txt "Script completed with errors."]
       end
   end) = (Ok v, t) ∧ existsb is_ask t = false.
Proof.
  destruct (process_csv_no_ask rt fs csv_path txt_path) as (v & t & E & Ht).
  destruct (process_csv_eq rt fs csv_path txt_path) as (t' & E' & _).
  rewrite E' in E. injection E as <- <-. rewrite E'. mstep.
  destruct (emails_to_write rt fs csv_path txt_path) as [es|];
    cbn [option_map]; mstep.
  - destruct (save_output_no_ask fs es
                (extract_domain (unicode rt) (hd VNaN es)) csv_path)
      as (vs & ts & Es & Hts).
    destruct (save_output_eq fs es
                (extract_domain (unicode rt) (hd VNaN es)) csv_path)
      as (ts' & Es' & _).
    rewrite Es' in Es. injection Es as <- <-. rewrite Es'.
    destruct (writable fs _); mstep; eexists _, _;
      (split; [reflexivity|]); rewrite !existsb_app, Ht, Hts; reflexivity.
  - eexists _, _. split; [reflexivity|].
    rewrite !existsb_app, Ht. reflexivity.
Qed.

Lemma interactive_main_eq rt fs csv_answer yes txt_answer : ∃ t,
  main rt fs csv_answer (select_txt_file yes txt_answer) =
    (Ok tt,
     Print [Txt "CSV Email Processing Script"] ::
     Print [Txt "========================================"] :: t) ∧
  Interactive.main rt fs csv_answer yes txt_answer =
    (Ok tt,
     Print [Txt "CSV Email Processing Script"] ::
     Print [Txt "========================================"] ::
     AskOpenFileName "Select CSV file to process" ::
     match csv_answer with
     | [] => t
     | _ :: _ =>
         AskYesNo "Optional Exclusion List"
           [Txt "Do you want to select a TXT file with emails to exclude?"] ::
         (if yes
          then [AskOpenFileName
                  "Select TXT file with emails to exclude (Optional)"]
          else []) ++ t
     end) ∧
  existsb is_ask t = false.
Proof.
  destruct csv_answer as [|c csv'].
  - eexists. split; [reflexivity|]. split; reflexivity.
  - destruct (after_selection_no_ask rt fs (c :: csv')
                (select_txt_file yes txt_answer)) as (v & t & E & Ht).
    destruct v. unfold safe_print, emit in E.
    unfold main, Interactive.main, Interactive.select_csv_file,
      Interactive.select_txt_file, Interactive.askopenfilename,
      Interactive.askyesno.
    destruct yes; unfold select_txt_file in *; mstep;
      [destruct txt_answer as [|x rest]|]; cbn [chosen]; mstep;
      rewrite E; mstep; eexists; (split; [reflexivity|]);
      (split; [reflexivity|]); ask_facts; exact Ht.
Qed.

Lemma filter_no_ask (f : Event → bool) t :
  (∀ e, is_ask e = false → f e = true) →
  existsb is_ask t = false → List.filter f t = t.
Proof.
  intros Hf. induction t as [|e t IH]; auto.
  simpl. intros [He Ht]%orb_false_iff. rewrite (Hf e He), IH; auto.
Qed.

Lemma filter_none_ask (f : Event → bool) t :
  (∀ e, is_ask e = false → f e = false) →
  existsb is_ask t = false → List.filter f t = [].
Proof.
  intros Hf. induction t as [|e t IH]; auto.
  simpl. intros [He Ht]%orb_false_iff. rewrite (Hf e He), IH; auto.
Qed.

Lemma messagebox_dialogs t :
  existsb is_ask t = false → List.filter is_messagebox t = dialogs t.
Proof.
  unfold dialogs. induction t as [|e t IH]; auto.
  simpl. intros [He Ht]%orb_false_iff. rewrite IH by auto.
  destruct e; try reflexivity; discriminate.
Qed.

(** X1. The script with its dialogs.  A run opens the CSV file dialog;
    when that is cancelled it shows no message box at all; otherwise it
    shows exactly two message boxes, whatever the files hold: the yes/no
    question about an exclusion file, and then one box that tells the
    outcome (success, a warning when nothing is left to write, an error
    when a file fails or a column is missing); the TXT file dialog is opened
    only after a yes.  With the dialogs left out, the run is, event for
    event, the run of [main] given the answers. *)
Theorem script_asks_then_shows_one_box rt fs csv_answer yes txt_answer :
  let asked := Interactive.main rt fs csv_answer yes txt_answer in
  let txt_path := select_txt_file yes txt_answer in
  value asked = Ok tt ∧
  List.filter is_messagebox (trace asked) =
    match csv_answer with
    | [] => []
    | _ :: _ =>
        [AskYesNo "Optional Exclusion List"
           [Txt "Do you want to select a TXT file with emails to exclude?"];
         script_box rt fs csv_answer txt_path]
    end ∧
  List.filter is_filedialog (trace asked) =
    AskOpenFileName "Select CSV file to process" ::
    match csv_answer with
    | [] => []
    | _ :: _ =>
        if yes
        then [AskOpenFileName
                "Select TXT file with emails to exclude (Optional)"]
        else []
    end ∧
  List.filter (fun e => negb (is_ask e)) (trace asked) =
    trace (main rt fs csv_answer txt_path).
Proof.
  intros asked txt_path. subst asked txt_path.
  pose proof (main_dialogs rt fs csv_answer (select_txt_file yes txt_answer))
    as Hbox.
  destruct (interactive_main_eq rt fs csv_answer yes txt_answer)
    as (t & Em & -> & Ht).
  rewrite Em in *. cbn [value trace fst snd] in *.
  change (dialogs (?a :: ?b :: t)) with (dialogs t) in Hbox.
  split; [reflexivity|].
  pose proof (messagebox_dialogs t Ht) as Hmsg.
  assert (Hfile : List.filter is_filedialog t = []).
  { apply filter_none_ask; auto. now intros []. }
  assert (Hrest : List.filter (fun e => negb (is_ask e)) t = t).
  { apply filter_no_ask; auto. now intros e ->. }
  destruct csv_answer as [|c csv']; cbn [List.filter is_messagebox
    is_filedialog is_ask negb].
  - rewrite Hmsg, Hbox, Hfile, Hrest. repeat split.
  - rewrite !List.filter_app, Hmsg, Hbox, Hfile, Hrest.
    destruct yes; repeat split.
Qed.

(** X2. A run of the window's [process_files] shows exactly one message
    box; it differs from the script's outcome box in its texts and in that
    "no valid email" is reported as an error, not as a warning. *)
Theorem window_shows_one_box rt fs csv_path txt_path :
  dialogs (trace (Gui.process_files rt fs csv_path txt_path)) =
    [window_box rt fs csv_path txt_path].
Proof. exact (process_files_dialogs rt fs csv_path txt_path). Qed.

(** X3. The script shows its success box exactly when it has created the
    output file: no success is reported for a file that was not written, and
    no file is written without the success box. *)
Theorem success_box_iff_file_written rt fs csv_path txt_path :
  existsb is_info (trace (main rt fs csv_path txt_path)) =
  negb (bool_decide (files_written (trace (main rt fs csv_path txt_path)) = [])).
Proof.
  rewrite info_in_dialogs, main_dialogs.
  destruct (main_eq rt fs csv_path txt_path) as (t & -> & Hf & _).
  cbn [trace snd]. rewrite Hf.
  destruct csv_path as [|c csv']; [reflexivity|].
  destruct (emails_to_write rt fs (c :: csv') txt_path) as [es|] eqn:Hes.
  - rewrite (script_box_some _ _ _ _ _ Hes). cbv zeta.
    destruct (writable fs (output_path (unicode rt) (c :: csv') es));
      reflexivity.
  - cbn [existsb]. now rewrite (script_box_none _ _ _ _ Hes).
Qed.

(** X4. For a chosen table the script and the window create the same
    files: the same place, the same name, the same records. *)
Theorem front_ends_write_the_same_files rt fs csv_path txt_path :
  files_written (trace (main rt fs csv_path txt_path)) =
    match csv_path with
    | [] => []
    | _ :: _ =>
        files_written (trace (Gui.process_files rt fs csv_path txt_path))
    end.
Proof.
  destruct csv_path as [|c csv'].
  - destruct (main_eq rt fs [] txt_path) as (t & -> & Hf & _). exact Hf.
  - destruct (main_eq rt fs (c :: csv') txt_path) as (t & -> & Hf & _).
    destruct (gui_process_files_eq rt fs (c :: csv') txt_path)
      as (t' & -> & Hf' & _).
    cbn [trace snd]. now rewrite Hf, Hf'.
Qed.

(** X5. A run never creates an empty table: whatever file the script
    writes is its only file, holds at least one record, and every record is
    one string that the validator accepts. *)
Theorem written_file_is_not_empty rt fs csv_path txt_path p f :
  In (p, f) (files_written (trace (main rt fs csv_path txt_path))) →
  files_written (trace (main rt fs csv_path txt_path)) = [(p, f)] ∧
  records f ≠ [] ∧
  Forall valid_record (records f).
Proof.
  intros H. destruct (main_written _ _ _ _ _ _ H)
    as (Hpath & es & Hes & -> & -> & Hw).
  split; [|split].
  - destruct (main_eq rt fs csv_path txt_path) as (t & -> & Hf & _).
    cbn [trace snd]. rewrite Hf. destruct csv_path; [congruence|].
    rewrite Hes. cbv zeta. now rewrite Hw.
  - apply emails_to_write_some in Hes as (_ & _ & _ & _ & _ & Hne).
    unfold output_file. cbn [records]. destruct es; [congruence|discriminate].
  - apply emails_to_write_some in Hes as (df & _ & _ & _ & -> & _).
    unfold output_file. cbn [records]. rewrite map_map.
    apply List.Forall_forall. intros r (row & <- & Hrow)%in_map_iff.
    apply filter_In in Hrow as [_ Hrow]. unfold survives in Hrow.
    apply andb_true_iff in Hrow as [_ Hvalid].
    destruct (email_of df row) as [s| |z]; try discriminate.
    exists s. auto.
Qed.

Lemma written_file_is_not_empty_witness :
  let p := {| parent_of := lit "users.csv";
              name := lit "x.com-to-delete.csv" |} in
  let f := {| header := [lit "primaryEmail"];
              records := [[VStr (lit "ann@x.com")]; [VStr (lit "Cy@Y.org")]] |} in
  In (p, f)
    (files_written
       (trace (main sample_runtime sample_fs (lit "users.csv")
                 (Some (lit "exclude.txt"))))) ∧
  files_written
    (trace (main sample_runtime sample_fs (lit "users.csv")
              (Some (lit "exclude.txt")))) = [(p, f)] ∧
  records f ≠ [] ∧
  Forall valid_record (records f).
Proof.
  cbv zeta.
  assert (H :
    In ({| parent_of := lit "users.csv"; name := lit "x.com-to-delete.csv" |},
        {| header := [lit "primaryEmail"];
           records := [[VStr (lit "ann@x.com")]; [VStr (lit "Cy@Y.org")]] |})
      (files_written
         (trace (main sample_runtime sample_fs (lit "users.csv")
                   (Some (lit "exclude.txt")))))).
  { vm_compute. left. reflexivity. }
  split; [exact H|].
  exact (written_file_is_not_empty sample_runtime sample_fs (lit "users.csv")
           (Some (lit "exclude.txt")) _ _ H).
Defined.

(** ** The validation loop *)





(** ** [validate_csv_format] *)

Lemma missing_columns_spec df c :
  In c (missing_columns df) ↔
  (c = EMAIL_COLUMN ∨ c = LOGIN_COLUMN) ∧ has_column df c = false.
Proof.
  unfold missing_columns. rewrite filter_In, negb_true_iff. simpl.
  intuition.
Qed.

(** X7. [validate_csv_format] returns [True] exactly when both mandatory
    columns are present; otherwise it raises a [ValueError] that lists the
    mandatory columns the table lacks, no others, in the order email, login.
    The script shows that list in its one error box and writes nothing. *)
Theorem missing_columns_are_reported rt fs csv_path txt_path df :
  csv_path ≠ [] →
  read_csv fs csv_path = Ok df →
  (validate_csv_format df = Ok true ↔
   has_column df EMAIL_COLUMN = true ∧ has_column df LOGIN_COLUMN = true) ∧
  (∀ c, In c (missing_columns df) ↔
        (c = EMAIL_COLUMN ∨ c = LOGIN_COLUMN) ∧ has_column df c = false) ∧
  (missing_columns df ≠ [] →
   validate_csv_format df = Raise (ValueError (missing_columns df)) ∧
   dialogs (trace (main rt fs csv_path txt_path)) =
     [ShowError "Error"
        [Txt "Error processing CSV: "; Exc (ValueError (missing_columns df))]] ∧
   files_written (trace (main rt fs csv_path txt_path)) = []).
Proof.
  intros Hpath Hread. split; [|split].
  - rewrite <- missing_columns_nil. unfold validate_csv_format.
    fold (missing_columns df). destruct (missing_columns df).
    + tauto.
    + split; discriminate.
  - intros c. apply missing_columns_spec.
  - intros Hmissing. split; [|split].
    + unfold validate_csv_format. fold (missing_columns df).
      destruct (missing_columns df); [congruence|reflexivity].
    + rewrite main_dialogs. destruct csv_path; [congruence|].
      unfold script_box. rewrite Hread.
      destruct (missing_columns df); [congruence|reflexivity].
    + destruct (main_eq rt fs csv_path txt_path) as (t & -> & Hf & _).
      cbn [trace snd]. rewrite Hf. destruct csv_path; [congruence|].
      rewrite (emails_to_write_none rt fs _ txt_path df Hread); auto.
      left. rewrite missing_columns_nil in Hmissing.
      destruct (has_column df EMAIL_COLUMN), (has_column df LOGIN_COLUMN);
        auto. tauto.
Qed.

Lemma missing_columns_are_reported_witness :
  lit "headless.csv" ≠ [] ∧
  read_csv sample_fs (lit "headless.csv") = Ok headless_table ∧
  missing_columns headless_table = [LOGIN_COLUMN] ∧
  dialogs (trace (main sample_runtime sample_fs (lit "headless.csv") None)) =
    [ShowError "Error"
       [Txt "Error processing CSV: ";
        Exc (ValueError (missing_columns headless_table))]].
Proof.
  assert (Hpath : lit "headless.csv" ≠ []) by discriminate.
  assert (Hread : read_csv sample_fs (lit "headless.csv") = Ok headless_table)
    by reflexivity.
  split; [exact Hpath|]. split; [exact Hread|]. split; [reflexivity|].
  destruct (missing_columns_are_reported sample_runtime sample_fs
              (lit "headless.csv") None headless_table Hpath Hread)
    as (_ & _ & Hraise).
  destruct Hraise as (_ & Hbox & _); [discriminate|]. exact Hbox.
Defined.

(** ** [extract_domain] on any value *)

Lemma split_head_tail (s : str) :
  split AT s =
  until_at s :: match after_first_at s with
                | Some rest => split AT rest
                | None => []
                end.
Proof.
  induction s as [|c s IH]; [reflexivity|].
  simpl. destruct (c =? AT); [reflexivity|].
  rewrite IH. reflexivity.
Qed.

Lemma contains_after_first_at (s : str) :
  contains AT s = match after_first_at s with Some _ => true | None => false end.
Proof.
  unfold contains. induction s as [|c s IH]; [reflexivity|].
  cbn [existsb after_first_at]. rewrite (N.eqb_sym AT c).
  destruct (c =? AT); cbn [orb]; auto.
Qed.

Lemma filter_keeps_class (cls : char → bool) (s : str) :
  all_of cls (List.filter cls s).
Proof.
  unfold all_of. apply forallb_forall. intros c [_ H]%filter_In. exact H.
Qed.

(** X8. [extract_domain] never fails.  A value that is no string, or a
    string without [@], gives ['unknown']; a string with [@] gives the text
    between its first and its second [@] (up to the end without a second
    one), less the characters outside the class [\w.-].  In every case each
    ASCII character of the result is one of [A-Za-z0-9._-], so the file name
    built from it contains no path separator, space or quote. *)
Theorem extract_domain_total (u : Unicode) (email : Cell) :
  extract_domain u email =
    match email with
    | VStr s =>
        match after_first_at s with
        | Some rest => List.filter (filename_char u) (until_at rest)
        | None => lit "unknown"
        end
    | _ => lit "unknown"
    end ∧
  all_of (filename_char u) (extract_domain u email) ∧
  all_of (fun c => negb (is_ascii c) || safe_char c) (extract_domain u email).
Proof.
  assert (Hform : extract_domain u email =
    match email with
    | VStr s =>
        match after_first_at s with
        | Some rest => List.filter (filename_char u) (until_at rest)
        | None => lit "unknown"
        end
    | _ => lit "unknown"
    end).
  { destruct email as [s| |z]; try reflexivity.
    unfold extract_domain. rewrite contains_after_first_at, split_head_tail.
    destruct (after_first_at s) as [rest|]; [|reflexivity].
    rewrite split_head_tail. reflexivity. }
  assert (Hclass : all_of (filename_char u) (extract_domain u email)).
  { rewrite Hform. destruct email as [s| |z]; try reflexivity.
    destruct (after_first_at s); [apply filter_keeps_class|reflexivity]. }
  split; [exact Hform|]. split; [exact Hclass|].
  revert Hclass. apply all_of_impl. intros c Hc.
  destruct (is_ascii c) eqn:Ha; [|reflexivity].
  now rewrite <- (filename_char_ascii u c Ha).
Qed.

(** A string with two [@]: the text between them is taken. *)
Example extract_domain_examples :
  List.map (extract_domain plain_unicode)
    [VStr (lit "a@b.c@d.e"); VStr (lit "no at sign"); VNaN;
     VStr (lit "x@../../etc/passwd"); VStr (lit "x@")] =
  [lit "b.c"; lit "unknown"; lit "unknown"; lit "....etcpasswd"; []].
Proof. reflexivity. Qed.

(** ** The members of the exclusion set *)

Lemma lower_ascii_local c :
  local_char c = true → local_char (lower_ascii c) = true.
Proof.
  unfold lower_ascii. destruct (is_upper c) eqn:Hu; [|auto].
  intros _. revert Hu. classes.
Qed.

Lemma lower_ascii_domain c :
  domain_char c = true → domain_char (lower_ascii c) = true.
Proof.
  unfold lower_ascii. destruct (is_upper c) eqn:Hu; [|auto].
  intros _. revert Hu. classes.
Qed.

Lemma lower_ascii_alpha c :
  is_alpha c = true → is_alpha (lower_ascii c) = true.
Proof.
  unfold lower_ascii. destruct (is_upper c) eqn:Hu; [|auto].
  intros _. revert Hu. classes.
Qed.

Lemma lower_ascii_not_upper c : is_upper (lower_ascii c) = false.
Proof.
  unfold lower_ascii. destruct (is_upper c) eqn:Hu; [|exact Hu].
  revert Hu. unfold is_upper, in_range. bool_to_prop. lia.
Qed.

Lemma all_of_map (P : char → bool) (g : char → char) (s : str) :
  (∀ c, P c = true → P (g c) = true) → all_of P s → all_of P (List.map g s).
Proof.
  intros Hg. unfold all_of. rewrite !forallb_forall.
  intros Hs c (x & <- & Hx)%in_map_iff. auto.
Qed.

(** Lower-casing an email gives an email. *)
Lemma full_match_lower (m : str) :
  full_match_email m → full_match_email (List.map lower_ascii m).
Proof.
  intros (l & d & t & -> & Hl0 & Hl & Hd0 & Hd & Ht2 & Ht).
  exists (List.map lower_ascii l), (List.map lower_ascii d),
    (List.map lower_ascii t).
  rewrite map_app. cbn [List.map]. rewrite map_app. cbn [List.map].
  repeat split.
  - destruct l; [congruence|discriminate].
  - revert Hl. apply all_of_map, lower_ascii_local.
  - destruct d; [congruence|discriminate].
  - revert Hd. apply all_of_map, lower_ascii_domain.
  - now rewrite length_map.
  - revert Ht. apply all_of_map, lower_ascii_alpha.
Qed.

(** X9. Every member of the exclusion set is itself an email that the
    validator accepts, written without upper-case letters: free text around
    an address, white space and letter case never reach the set. *)
Theorem exclusion_set_holds_lower_case_emails (u : Unicode)
  (lines : list str) (E : str) :
  E ∈ exclusion_of_lines u lines →
  full_match_email E ∧
  validate_email (VStr E) = true ∧
  all_of (fun c => negb (is_upper c)) E ∧
  lower u E = E.
Proof.
  intros (line & m & _ & _ & Hm & ->)%exclusion_of_lines_spec.
  apply search_sound in Hm as [Hfull _].
  rewrite (lower_full_match u m Hfull).
  pose proof (full_match_lower m Hfull) as Hlow.
  assert (Hnoupper : all_of (fun c => negb (is_upper c))
                       (List.map lower_ascii m)).
  { unfold all_of. apply forallb_forall. intros c (x & <- & _)%in_map_iff.
    now rewrite lower_ascii_not_upper. }
  split; [exact Hlow|]. split; [|split; [exact Hnoupper|]].
  - apply validate_email_iff. left. exact Hlow.
  - rewrite (lower_full_match u _ Hlow). rewrite map_map.
    apply map_ext_in. intros c Hc. unfold lower_ascii at 1.
    now rewrite lower_ascii_not_upper.
Qed.

Lemma exclusion_set_holds_lower_case_emails_witness :
  lit "ed@x.com" ∈ exclusion_of_lines plain_unicode exclusion_lines ∧
  full_match_email (lit "ed@x.com") ∧
  validate_email (VStr (lit "ed@x.com")) = true ∧
  all_of (fun c => negb (is_upper c)) (lit "ed@x.com") ∧
  lower plain_unicode (lit "ed@x.com") = lit "ed@x.com".
Proof.
  assert (H : lit "ed@x.com" ∈ exclusion_of_lines plain_unicode exclusion_lines).
  { apply exclusion_of_lines_spec.
    exists (lit "ed@x.com" ++ [10]), (lit "ed@x.com").
    repeat split; try reflexivity.
    - right. right. right. left. reflexivity.
    - discriminate. }
  split; [exact H|].
  exact (exclusion_set_holds_lower_case_emails plain_unicode exclusion_lines
           (lit "ed@x.com") H).
Defined.

(** ** Exclusion, end to end *)

Lemma whole_line_member u lines line :
  In line lines → validate_email (VStr (strip u line)) = true →
  lower u (strip u line) ∈ exclusion_of_lines u lines.
Proof.
  intros Hline Hvalid.
  pose proof (validate_stripped u line Hvalid) as Hfull.
  apply exclusion_of_lines_spec. exists line, (strip u line).
  repeat split; auto.
  - intros H. rewrite H in Hfull. destruct Hfull as (l & d & t & Hnil & _).
    destruct l; discriminate.
  - now apply search_exact.
Qed.

(** X10. An address of the table that the exclusion file lists on a line
    of its own, in any letter case and with any white space around it, is
    not in the output: no record of a written file has the lower-case of
    that line. *)
Theorem listed_address_is_not_written rt fs csv_path txt_path p lines line
  out f s :
  chosen txt_path = Some p →
  read_lines fs p = Ok lines →
  In line lines →
  validate_email (VStr (strip (unicode rt) line)) = true →
  In (out, f) (files_written (trace (main rt fs csv_path txt_path))) ∨
  In (out, f)
    (files_written (trace (Gui.process_files rt fs csv_path txt_path))) →
  lower (unicode rt) s = lower (unicode rt) (strip (unicode rt) line) →
  ¬ In [VStr s] (records f).
Proof.
  intros Hchosen Hread Hline Hvalid Hfile Hsame Hin.
  pose proof (whole_line_member (unicode rt) lines line Hline Hvalid)
    as Hmember.
  assert (HX : exclusion_set rt fs txt_path =
               exclusion_of_lines (unicode rt) lines).
  { unfold exclusion_set. now rewrite Hchosen, Hread. }
  destruct (emails_to_write rt fs csv_path txt_path) as [es|] eqn:Hes.
  - apply run_files in Hfile as (es' & Hes' & _ & -> & _).
    apply emails_to_write_some in Hes' as (df & _ & _ & _ & -> & _).
    unfold output_file in Hin. cbn [records] in Hin. rewrite map_map in Hin.
    apply in_map_iff in Hin as (row & [= Hrow] & Hsurv).
    apply filter_In in Hsurv as [_ Hsurv]. unfold survives in Hsurv.
    apply andb_true_iff in Hsurv as [[_ Hex]%andb_true_iff _].
    apply negb_true_iff in Hex. unfold excluded in Hex.
    rewrite Hrow in Hex. apply bool_decide_eq_false in Hex.
    apply Hex. rewrite HX, Hsame. exact Hmember.
  - apply run_files in Hfile as (es' & Hes' & _). congruence.
Qed.

Lemma listed_address_is_not_written_witness :
  let out := {| parent_of := lit "users.csv";
                name := lit "x.com-to-delete.csv" |} in
  let f := {| header := [lit "primaryEmail"];
              records := [[VStr (lit "ann@x.com")]; [VStr (lit "Cy@Y.org")]] |} in
  (chosen (Some (lit "exclude.txt")) = Some (lit "exclude.txt") ∧
   read_lines sample_fs (lit "exclude.txt") = Ok exclusion_lines ∧
   In (lit "  ED@X.com  " ++ [10]) exclusion_lines ∧
   validate_email
     (VStr (strip (unicode sample_runtime) (lit "  ED@X.com  " ++ [10]))) =
     true ∧
   In (out, f)
     (files_written
        (trace (main sample_runtime sample_fs (lit "users.csv")
                  (Some (lit "exclude.txt"))))) ∧
   lower (unicode sample_runtime) (lit "ed@x.com") =
   lower (unicode sample_runtime)
     (strip (unicode sample_runtime) (lit "  ED@X.com  " ++ [10]))) ∧
  ¬ In [VStr (lit "ed@x.com")] (records f).
Proof.
  cbv zeta.
  assert (Hline : In (lit "  ED@X.com  " ++ [10]) exclusion_lines).
  { right. left. reflexivity. }
  assert (Hfile :
    In ({| parent_of := lit "users.csv"; name := lit "x.com-to-delete.csv" |},
        {| header := [lit "primaryEmail"];
           records := [[VStr (lit "ann@x.com")]; [VStr (lit "Cy@Y.org")]] |})
      (files_written
         (trace (main sample_runtime sample_fs (lit "users.csv")
                   (Some (lit "exclude.txt")))))).
  { vm_compute. left. reflexivity. }
  assert (Hvalid :
    validate_email
      (VStr (strip (unicode sample_runtime) (lit "  ED@X.com  " ++ [10]))) =
    true) by (vm_compute; reflexivity).
  assert (Hsame :
    lower (unicode sample_runtime) (lit "ed@x.com") =
    lower (unicode sample_runtime)
      (strip (unicode sample_runtime) (lit "  ED@X.com  " ++ [10])))
    by (vm_compute; reflexivity).
  split.
  { split; [reflexivity|]. split; [reflexivity|]. split; [exact Hline|].
    split; [exact Hvalid|]. split; [exact Hfile|exact Hsame]. }
  exact (listed_address_is_not_written sample_runtime sample_fs
           (lit "users.csv") (Some (lit "exclude.txt")) (lit "exclude.txt")
           exclusion_lines (lit "  ED@X.com  " ++ [10]) _ _ (lit "ed@x.com")
           eq_refl eq_refl Hline Hvalid (or_introl Hfile) Hsame).
Defined.

Lemma survives_split u X df row :
  survives u X df row = survives u ∅ df row && negb (excluded u X df row).
Proof.
  unfold survives. rewrite excluded_empty. cbn [negb].
  rewrite andb_true_r.
  destruct (logged_in df row), (excluded u X df row),
    (validate_email (email_of df row)); reflexivity.
Qed.

(** X11. An exclusion file only removes records.  When the run with the
    file and the run without it both write their output, the records of the
    first are the records of the second less those whose lower-case is in
    the exclusion set, in the same order: nothing is added, changed or
    moved. *)
Theorem exclusion_only_removes rt fs csv_path txt_path p f p0 f0 :
  In (p, f) (files_written (trace (main rt fs csv_path txt_path))) →
  In (p0, f0) (files_written (trace (main rt fs csv_path None))) →
  records f =
    List.filter
      (fun r => negb (record_in (unicode rt) (exclusion_set rt fs txt_path) r))
      (records f0).
Proof.
  intros (_ & es & Hes & _ & -> & _)%main_written
         (_ & es0 & Hes0 & _ & -> & _)%main_written.
  apply emails_to_write_some in Hes as (df & Hread & _ & _ & -> & _).
  apply emails_to_write_some in Hes0 as (df0 & Hread0 & _ & _ & -> & _).
  assert (df0 = df) by congruence. subst df0.
  unfold output_file. cbn [records]. rewrite !map_map.
  rewrite filter_map_comm. f_equal.
  rewrite filter_filter. apply filter_ext. intros row.
  rewrite survives_split.
  change (exclusion_set rt fs None) with (∅ : gset str).
  f_equal; unfold record_in, excluded;
    destruct (email_of df row); reflexivity.
Qed.

Lemma exclusion_only_removes_witness :
  let f := {| header := [lit "primaryEmail"];
              records := [[VStr (lit "ann@x.com")]; [VStr (lit "Cy@Y.org")]] |} in
  let f0 := {| header := [lit "primaryEmail"];
               records := [[VStr (lit "ann@x.com")]; [VStr (lit "Cy@Y.org")];
                           [VStr (lit "ed@x.com")]] |} in
  let p := {| parent_of := lit "users.csv";
              name := lit "x.com-to-delete.csv" |} in
  In (p, f)
    (files_written
       (trace (main sample_runtime sample_fs (lit "users.csv")
                 (Some (lit "exclude.txt"))))) ∧
  In (p, f0)
    (files_written
       (trace (main sample_runtime sample_fs (lit "users.csv") None))) ∧
  records f =
    List.filter
      (fun r =>
         negb (record_in (unicode sample_runtime)
                 (exclusion_set sample_runtime sample_fs
                    (Some (lit "exclude.txt"))) r))
      (records f0).
Proof.
  cbv zeta.
  assert (H :
    In ({| parent_of := lit "users.csv"; name := lit "x.com-to-delete.csv" |},
        {| header := [lit "primaryEmail"];
           records := [[VStr (lit "ann@x.com")]; [VStr (lit "Cy@Y.org")]] |})
      (files_written
         (trace (main sample_runtime sample_fs (lit "users.csv")
                   (Some (lit "exclude.txt")))))).
  { vm_compute. left. reflexivity. }
  assert (H0 :
    In ({| parent_of := lit "users.csv"; name := lit "x.com-to-delete.csv" |},
        {| header := [lit "primaryEmail"];
           records := [[VStr (lit "ann@x.com")]; [VStr (lit "Cy@Y.org")];
                       [VStr (lit "ed@x.com")]] |})
      (files_written
         (trace (main sample_runtime sample_fs (lit "users.csv") None)))).
  { vm_compute. left. reflexivity. }
  split; [exact H|]. split; [exact H0|].
  exact (exclusion_only_removes sample_runtime sample_fs (lit "users.csv")
           (Some (lit "exclude.txt")) _ _ _ _ H H0).
Defined.

Lemma script_box_ext rt fs csv_path txt_path txt_path' :
  exclusion_set rt fs txt_path = exclusion_set rt fs txt_path' →
  script_box rt fs csv_path txt_path = script_box rt fs csv_path txt_path'.
Proof. unfold script_box, emails_to_write. now intros ->. Qed.

Lemma window_box_ext rt fs csv_path txt_path txt_path' :
  exclusion_set rt fs txt_path = exclusion_set rt fs txt_path' →
  window_box rt fs csv_path txt_path = window_box rt fs csv_path txt_path'.
Proof. unfold window_box, emails_to_write. now intros ->. Qed.

(** X12. An exclusion file that yields no address (blank, free text only,
    or unreadable) changes nothing: the run creates the files and shows the
    box of the run without an exclusion file, in the script and in the
    window; the [.str] accessor of pandas is not even asked for. *)
Theorem empty_exclusion_changes_nothing rt fs csv_path txt_path :
  (∀ p, chosen txt_path = Some p →
        value (load_exclusion_emails rt fs p) = Ok ∅) →
  files_written (trace (main rt fs csv_path txt_path)) =
    files_written (trace (main rt fs csv_path None)) ∧
  dialogs (trace (main rt fs csv_path txt_path)) =
    dialogs (trace (main rt fs csv_path None)) ∧
  files_written (trace (Gui.process_files rt fs csv_path txt_path)) =
    files_written (trace (Gui.process_files rt fs csv_path None)) ∧
  dialogs (trace (Gui.process_files rt fs csv_path txt_path)) =
    dialogs (trace (Gui.process_files rt fs csv_path None)).
Proof.
  intros Hempty.
  assert (HX : exclusion_set rt fs txt_path = exclusion_set rt fs None).
  { unfold exclusion_set at 1. destruct (chosen txt_path) as [p|] eqn:Hp;
      [|reflexivity].
    specialize (Hempty p eq_refl).
    destruct (load_exclusion_emails_eq rt fs p) as (t & E & _).
    rewrite E in Hempty. cbn [value fst] in Hempty.
    injection Hempty as ->. reflexivity. }
  pose proof (emails_to_write_ext rt fs csv_path _ _ HX) as Hes.
  rewrite !main_dialogs, !process_files_dialogs.
  rewrite (script_box_ext _ _ _ _ _ HX), (window_box_ext _ _ _ _ _ HX).
  destruct (main_eq rt fs csv_path txt_path) as (t1 & -> & Hf1 & _).
  destruct (main_eq rt fs csv_path None) as (t2 & -> & Hf2 & _).
  destruct (gui_process_files_eq rt fs csv_path txt_path)
    as (t3 & -> & Hf3 & _).
  destruct (gui_process_files_eq rt fs csv_path None) as (t4 & -> & Hf4 & _).
  cbn [trace snd]. rewrite Hf3, Hf4, Hes.
  repeat split.
  destruct csv_path; rewrite Hf1, Hf2; [reflexivity|]. now rewrite Hes.
Qed.

Lemma empty_exclusion_changes_nothing_witness :
  (∀ p, chosen (Some (lit "notes.txt")) = Some p →
        value (load_exclusion_emails sample_runtime notes_fs p) = Ok ∅) ∧
  files_written
    (trace (main sample_runtime notes_fs (lit "scenario.csv")
              (Some (lit "notes.txt")))) =
    files_written
      (trace (main sample_runtime notes_fs (lit "scenario.csv") None)) ∧
  dialogs
    (trace (main sample_runtime notes_fs (lit "scenario.csv")
              (Some (lit "notes.txt")))) =
    dialogs (trace (main sample_runtime notes_fs (lit "scenario.csv") None)).
Proof.
  assert (H : ∀ p, chosen (Some (lit "notes.txt")) = Some p →
            value (load_exclusion_emails sample_runtime notes_fs p) = Ok ∅).
  { intros p [= <-]. vm_compute. reflexivity. }
  split; [exact H|].
  destruct (empty_exclusion_changes_nothing sample_runtime notes_fs
              (lit "scenario.csv") (Some (lit "notes.txt")) H)
    as (Hfiles & Hboxes & _).
  split; [exact Hfiles|exact Hboxes].
Defined.

(** ** The exclusion dialog of the script *)



(** ** Errors do not escape *)

(** X14. No exception leaves [load_exclusion_emails], [process_csv],
    [save_output], [main] or the window's [process_files]: whatever the file
    system answers and whatever the table holds, each returns, the first
    with a set, the second with the emails or [None], the third with the
    path or [None]. *)
Theorem no_exception_escapes rt fs csv_path txt_path p emails domain :
  (∃ X, value (load_exclusion_emails rt fs p) = Ok X) ∧
  (∃ r, value (process_csv rt fs csv_path txt_path) = Ok r) ∧
  (∃ r, value (save_output fs emails domain csv_path) = Ok r) ∧
  value (main rt fs csv_path txt_path) = Ok tt ∧
  value (Gui.process_files rt fs csv_path txt_path) = Ok tt.
Proof.
  destruct (load_exclusion_emails_eq rt fs p) as (t0 & -> & _).
  destruct (process_csv_eq rt fs csv_path txt_path) as (t1 & -> & _).
  destruct (save_output_eq fs emails domain csv_path) as (t2 & -> & _).
  destruct (main_eq rt fs csv_path txt_path) as (t4 & -> & _).
  destruct (gui_process_files_eq rt fs csv_path txt_path) as (t5 & -> & _).
  cbn [value fst]. repeat split; eauto.
Qed.

(** ** The window's selection state *)

Import Window.

Lemma chosen_idem (p : option str) : chosen (chosen p) = chosen p.
Proof. destruct p as [[|c s]|]; reflexivity. Qed.

Lemma step_selection (w : Window.t) (a : action) :
  csv_label w = label_for "No file selected" (csv_path w) →
  csv_clear_button w = button_for (csv_path w) →
  txt_label w = label_for "No file selected (optional)" (txt_path w) →
  txt_clear_button w = button_for (txt_path w) →
  chosen (csv_path w) = csv_path w →
  chosen (txt_path w) = txt_path w →
  let w' := step w a in
  csv_path w' = last_csv [a] (csv_path w) ∧
  txt_path w' = last_txt [a] (txt_path w) ∧
  csv_label w' = label_for "No file selected" (csv_path w') ∧
  csv_clear_button w' = button_for (csv_path w') ∧
  txt_label w' = label_for "No file selected (optional)" (txt_path w') ∧
  txt_clear_button w' = button_for (txt_path w') ∧
  chosen (csv_path w') = csv_path w' ∧
  chosen (txt_path w') = txt_path w'.
Proof.
  intros Hcl Hcb Htl Htb Hc Ht.
  destruct a as [answer|answer| | | |]; cbn [step].
  - destruct answer as [|c answer]; cbn; repeat split; auto.
  - destruct answer as [|c answer]; cbn; repeat split; auto.
  - cbn; repeat split; auto.
  - cbn; repeat split; auto.
  - unfold start_processing.
    destruct (chosen (csv_path w)) eqn:E; cbn; repeat split; auto;
      rewrite E; exact Hc.
  - cbn; repeat split; auto.
Qed.

Lemma fold_selection (actions : list action) : ∀ w : Window.t,
  csv_label w = label_for "No file selected" (csv_path w) →
  csv_clear_button w = button_for (csv_path w) →
  txt_label w = label_for "No file selected (optional)" (txt_path w) →
  txt_clear_button w = button_for (txt_path w) →
  chosen (csv_path w) = csv_path w →
  chosen (txt_path w) = txt_path w →
  let w' := fold_left step actions w in
  csv_path w' = last_csv actions (csv_path w) ∧
  txt_path w' = last_txt actions (txt_path w) ∧
  csv_label w' = label_for "No file selected" (csv_path w') ∧
  csv_clear_button w' = button_for (csv_path w') ∧
  txt_label w' = label_for "No file selected (optional)" (txt_path w') ∧
  txt_clear_button w' = button_for (txt_path w') ∧
  chosen (csv_path w') = csv_path w' ∧
  chosen (txt_path w') = txt_path w'.
Proof.
  induction actions as [|a actions IH]; intros w Hcl Hcb Htl Htb Hc Ht.
  - cbn. auto 10.
  - destruct (step_selection w a Hcl Hcb Htl Htb Hc Ht)
      as (Hc1 & Ht1 & Hcl' & Hcb' & Htl' & Htb' & Hc' & Ht').
    cbn [fold_left]. cbv zeta.
    destruct (IH (step w a) Hcl' Hcb' Htl' Htb' Hc' Ht')
      as (Hc2 & Ht2 & Hrest).
    split; [|split; [|exact Hrest]].
    + rewrite Hc2, Hc1. destruct a; reflexivity.
    + rewrite Ht2, Ht1. destruct a; reflexivity.
Qed.

(** X15. Whatever the user does with the two file dialogs, the two Clear
    buttons and Start, the window keeps its selection consistent: the
    selected file is the answer of the last dialog of its kind unless Clear
    was pressed since or that dialog was cancelled, which both leave no
    selection; each label shows the base name of the selection or its
    placeholder; each Clear button is enabled exactly when there is a
    selection; and a selection is never the empty path. *)
Theorem window_selection_invariant (actions : list action) :
  csv_path (reach actions) = last_csv actions None ∧
  txt_path (reach actions) = last_txt actions None ∧
  csv_label (reach actions) =
    label_for "No file selected" (csv_path (reach actions)) ∧
  csv_clear_button (reach actions) = button_for (csv_path (reach actions)) ∧
  txt_label (reach actions) =
    label_for "No file selected (optional)" (txt_path (reach actions)) ∧
  txt_clear_button (reach actions) = button_for (txt_path (reach actions)) ∧
  chosen (csv_path (reach actions)) = csv_path (reach actions) ∧
  chosen (txt_path (reach actions)) = txt_path (reach actions).
Proof.
  exact (fold_selection actions init eq_refl eq_refl eq_refl eq_refl
           eq_refl eq_refl).
Qed.

(** Selecting, cancelling and clearing. *)
Example selection_examples :
  csv_path (reach [SelectCsv (lit "a.csv"); SelectTxt (lit "e.txt");
                   SelectCsv []]) = None ∧
  txt_path (reach [SelectCsv (lit "a.csv"); SelectTxt (lit "e.txt");
                   SelectCsv []]) = Some (lit "e.txt") ∧
  csv_path (reach [SelectCsv (lit "a.csv"); ClearTxt; Start; Finished]) =
    Some (lit "a.csv").
Proof. repeat split. Qed.

(** X16. Start needs a CSV selection.  After any sequence of dialogs,
    Clear, Start and end of processing: when no CSV file is selected at that
    moment (none chosen yet, the last CSV dialog cancelled, or Clear pressed
    since), Start shows the error box, starts no worker and leaves the window
    as it is; otherwise it shows no box, starts the worker and disables the
    start button, which the end of processing enables again, and it leaves
    the two selections, the labels and the log untouched. *)
Theorem start_needs_a_csv_selection (actions : list action) :
  match last_csv actions None with
  | None =>
      start_processing (reach actions) =
        (reach actions,
         [ShowError "Error" [Txt "Please select a CSV file first!"]], false)
  | Some path =>
      ∃ w',
        start_processing (reach actions) = (w', [], true) ∧
        start_button w' = disabled ∧
        start_button (processing_finished w') = normal ∧
        csv_path w' = Some path ∧
        txt_path w' = last_txt actions None ∧
        csv_label w' = [Base path] ∧
        txt_label w' = txt_label (reach actions) ∧
        log_text w' = log_text (reach actions)
  end.
Proof.
  destruct (fold_selection actions init eq_refl eq_refl eq_refl eq_refl
              eq_refl eq_refl)
    as (Hc & Ht & Hlabel & _ & _ & _ & Hchosen & _).
  fold (reach actions) in Hc, Ht, Hlabel, Hchosen.
  change (csv_path init) with (@None str) in Hc.
  change (txt_path init) with (@None str) in Ht.
  unfold start_processing. rewrite Hchosen, Hc.
  rewrite Hc in Hlabel.
  destruct (last_csv actions None) as [path|]; [|reflexivity].
  eexists. split; [reflexivity|]. cbn.
  repeat split; auto.
Qed.
